(** * cdk-ssm-document: the custom-resource Lambda (src/lambda/index.ts)

    A shallow embedding of the Lambda that reconciles an SSM document with
    the desired state carried by a CloudFormation custom-resource event:
    the tag functions [makeTags], [getMissingTags], the four steps of the
    update pipeline, [Create], [Update] and [Delete], and the conversion
    [fixBooleanParameters] that the entry point applies to the event
    before it hands it to the custom-resource library.

    The AWS SSM client is an external collaborator.  It is modelled as an
    arbitrary deterministic oracle: a function from the calls issued so far
    and the current request to a reply.  Promises become functions on the
    state of the Node.js process, which holds the module-level variable
    [latestVersion] and a trace of the remote calls. *)

From Stdlib Require Import Ascii String List Bool.
From stdpp Require Import list strings gmap.
Import ListNotations.

(** ** JavaScript values and built-ins used by the source *)

Module JS.

(** ["x || d"] on a possibly undefined string: [undefined] and the empty
    string are the falsy values. *)
Definition truthy (x : option string) : bool :=
  match x with
  | Some (String _ _) => true
  | _ => false
  end.

Definition or_else (x : option string) (d : string) : string :=
  match x with
  | Some (String c s) => String c s
  | _ => d
  end.

(** [Array.prototype.includes] on an array of strings, applied to a
    possibly undefined value. *)
Definition includes (l : list string) (x : option string) : bool :=
  match x with
  | Some s => existsb (String.eqb s) l
  | None => false
  end.

(** [String.prototype.toLowerCase], on the ASCII letters. *)
Definition lower_char (c : ascii) : ascii :=
  let n := nat_of_ascii c in
  if (65 <=? n) && (n <=? 90) then ascii_of_nat (n + 32) else c.

Fixpoint toLowerCase (s : string) : string :=
  match s with
  | EmptyString => EmptyString
  | String c r => String (lower_char c) (toLowerCase r)
  end.

(** A JavaScript object with string keys, as the list of its own
    enumerable properties in enumeration order ([Object.keys] order). *)
Definition object (V : Type) := list (string * V).

Definition keys {V} (o : object V) : list string := map fst o.

(** [o[k]]: the value of property [k], [undefined] when there is none. *)
Fixpoint get {V} (o : object V) (k : string) : option V :=
  match o with
  | [] => None
  | (k', v) :: r => if String.eqb k' k then Some v else get r k
  end.

(** The keys of an object are pairwise distinct. *)
Definition wf_object {V} (o : object V) : Prop := NoDup (keys o).

(** [Array.prototype.push]. *)
Definition push {A} (arr : list A) (x : A) : list A := arr ++ [x].

(** [Array.prototype.forEach] with a callback that updates an
    accumulator captured by the closure. *)
Definition forEach {A S} (arr : list A) (f : S -> A -> S) (acc : S) : S :=
  fold_left f arr acc.

End JS.

(** ** Data model *)

(** [AWS.SSM.Tag]; [Value] is [undefined] when the property it was read
    from is absent. *)
Record Tag := mkTag { Key : string; Value : option string }.

Definition TagList := list Tag.

(** The JSON document carried in [Content]. A number is kept as its
    canonical decimal text. *)
#[warnings="-register-all"]
Inductive json :=
| JNull
| JBool (b : bool)
| JNumber (text : string)
| JString (s : string)
| JArray (items : list json)
| JObject (fields : list (string * json)).

(** [event.ResourceProperties] and [event.OldResourceProperties]: the
    properties the handlers read. Both spellings of the target type occur
    in the source: [Create] reads [TargetType], [updateDocument] reads
    [targetType]. *)
Record Properties := mkProperties {
  Name : string;
  Content : json;
  DocumentType : option string;
  TargetType : option string;
  targetType : option string;
  UpdateDefaultVersion : option string;
  StackName : option string;
  Tags : option (JS.object string);
}.

(** The custom-resource event. [OldResourceProperties] is supplied on
    update events, the only ones whose handler reads it.
    [ResponseValues] is what [addResponseValue] writes. *)
Record Event := mkEvent {
  StackId : string;
  LogicalResourceId : string;
  ResourceProperties : Properties;
  OldResourceProperties : Properties;
  ResponseValues : gmap string string;
}.

Definition addResponseValue (key value : string) (event : Event) : Event :=
  {| StackId := StackId event;
     LogicalResourceId := LogicalResourceId event;
     ResourceProperties := ResourceProperties event;
     OldResourceProperties := OldResourceProperties event;
     ResponseValues := <[key := value]> (ResponseValues event) |}.

(** ** [JSON.stringify] *)

Module JSON.

Definition dquote : ascii := "034"%char.
Definition backslash : ascii := "092"%char.

Definition hex_digit (n : nat) : ascii :=
  if n <? 10 then ascii_of_nat (48 + n) else ascii_of_nat (87 + n).

(** The escape sequence of one character (QuoteJSONString): the two
    characters that must be escaped, the five short control escapes,
    [\u00XX] for the other control characters, and every other character
    as it is. *)
Definition escape_char (c : ascii) : string :=
  let n := nat_of_ascii c in
  if n =? 34 then String backslash (String dquote EmptyString)
  else if n =? 92 then String backslash (String backslash EmptyString)
  else if n =? 8 then String backslash "b"
  else if n =? 12 then String backslash "f"
  else if n =? 10 then String backslash "n"
  else if n =? 13 then String backslash "r"
  else if n =? 9 then String backslash "t"
  else if n <? 32 then
    String backslash
      (String "u" (String "0" (String "0"
        (String (hex_digit (n / 16)) (String (hex_digit (n mod 16)) EmptyString)))))
  else String c EmptyString.

Fixpoint escape (s : string) : string :=
  match s with
  | EmptyString => EmptyString
  | String c r => escape_char c +:+ escape r
  end.

Definition quote (s : string) : string :=
  String dquote (escape s +:+ String dquote EmptyString).

(** [Array.prototype.join]. *)
Fixpoint join (sep : string) (l : list string) : string :=
  match l with
  | [] => EmptyString
  | [x] => x
  | x :: r => x +:+ sep +:+ join sep r
  end.

Fixpoint stringify (v : json) : string :=
  match v with
  | JNull => "null"
  | JBool true => "true"
  | JBool false => "false"
  | JNumber text => text
  | JString s => quote s
  | JArray items => "[" +:+ join "," (map stringify items) +:+ "]"
  | JObject fields =>
      "{" +:+ join "," (map (fun kv => quote (fst kv) +:+ ":" +:+ stringify (snd kv)) fields)
        +:+ "}"
  end.

(** A tag list as the JSON value [JSON.stringify] sees: an array of
    objects with the properties [Key] and [Value]; a property whose value
    is [undefined] is left out. *)
Definition of_tag (t : Tag) : json :=
  JObject (("Key", JString (Key t)) ::
           match Value t with
           | Some v => [("Value", JString v)]
           | None => []
           end).

Definition of_tags (tags : TagList) : json := JArray (map of_tag tags).

(** *** Reading a serialization back

    The inverse of [escape_char], and the text of a tag list written with
    the text that follows it, serve to show that a serialized tag list
    determines the list. *)

Definition hex_value (c : ascii) : option nat :=
  let n := nat_of_ascii c in
  if (48 <=? n) && (n <=? 57) then Some (n - 48)
  else if (97 <=? n) && (n <=? 102) then Some (n - 87)
  else None.

Definition unescape_char (s : string) : option (ascii * string) :=
  match s with
  | EmptyString => None
  | String c r =>
      if negb (Ascii.eqb c backslash) then Some (c, r)
      else
        match r with
        | EmptyString => None
        | String e r' =>
            if Ascii.eqb e dquote then Some (dquote, r')
            else if Ascii.eqb e backslash then Some (backslash, r')
            else if Ascii.eqb e "b" then Some (ascii_of_nat 8, r')
            else if Ascii.eqb e "f" then Some (ascii_of_nat 12, r')
            else if Ascii.eqb e "n" then Some (ascii_of_nat 10, r')
            else if Ascii.eqb e "r" then Some (ascii_of_nat 13, r')
            else if Ascii.eqb e "t" then Some (ascii_of_nat 9, r')
            else if Ascii.eqb e "u" then
              match r' with
              | String _ (String _ (String h (String l r''))) =>
                  match hex_value h, hex_value l with
                  | Some a, Some b => Some (ascii_of_nat (16 * a + b), r'')
                  | _, _ => None
                  end
              | _ => None
              end
            else None
        end
  end.

Definition write_tag (t : Tag) (rest : string) : string :=
  ("{" +:+ quote "Key" +:+ ":") +:+ quote (Key t) +:+
  match Value t with
  | Some v => ("," +:+ quote "Value" +:+ ":") +:+ quote v +:+ "}" +:+ rest
  | None => "}" +:+ rest
  end.

Fixpoint write_more (tags : TagList) (rest : string) : string :=
  match tags with
  | [] => rest
  | t :: tags' => "," +:+ write_tag t (write_more tags' rest)
  end.

End JSON.

Definition defaultTargetType : string := "/".

(** ** Tag functions *)

Definition systemTags (event : Event) (properties : Properties) : TagList :=
  [ {| Key := "aws-cloudformation:stack-id"; Value := Some (StackId event) |};
    {| Key := "aws-cloudformation:stack-name"; Value := StackName properties |};
    {| Key := "aws-cloudformation:logical-id";
       Value := Some (LogicalResourceId event) |} ].

Definition makeTags (event : Event) (properties : Properties) : TagList :=
  let tags := systemTags event properties in
  match Tags properties with
  | Some userTags =>
      JS.forEach (JS.keys userTags)
        (fun tags key => JS.push tags {| Key := key; Value := JS.get userTags key |})
        tags
  | None => tags
  end.

Definition missingTags (newTags : TagList) : Tag -> bool :=
  fun currentTag =>
    length (List.filter (fun newTag => String.eqb (Key newTag) (Key currentTag)) newTags)
      =? 0.

Definition getMissingTags (oldTags newTags : TagList) : list string :=
  let missing := List.filter (missingTags newTags) oldTags in
  map Key missing.

(** The keys of the three system tags. *)
Definition systemTagKeys : list string :=
  [ "aws-cloudformation:stack-id";
    "aws-cloudformation:stack-name";
    "aws-cloudformation:logical-id" ].

(** The tag-removal key computation in the words of the specification:
    walk [oldTags] in order and keep the key of every entry whose key does
    not occur among the keys of [newTags]. *)
Fixpoint missingKeys (oldTags newTags : TagList) : list string :=
  match oldTags with
  | [] => []
  | t :: rest =>
      if existsb (String.eqb (Key t)) (map Key newTags)
      then missingKeys rest newTags
      else Key t :: missingKeys rest newTags
  end.

(** The entries of a user tag mapping, as tags. *)
Definition userTags (o : JS.object string) : TagList :=
  map (fun kv => {| Key := fst kv; Value := Some (snd kv) |}) o.

(** ** The SSM client *)

(** A JavaScript error object: [code] is set on the errors of the AWS SDK
    and [undefined] on a built-in error such as [TypeError]. *)
Record Error := mkError { code : option string; message : string }.

Definition TypeError (msg : string) : Error := {| code := None; message := msg |}.

Module SSM.

Inductive request :=
| createDocument (Name Content : string) (DocumentType : option string)
    (TargetType : string) (Tags : TagList)
| updateDocument (Name Content TargetType DocumentVersion : string)
| addTagsToResource (ResourceType ResourceId : string) (Tags : TagList)
| removeTagsFromResource (ResourceId ResourceType : string) (TagKeys : list string)
| updateDocumentDefaultVersion (Name DocumentVersion : string)
| deleteDocument (Name : string).

(** The part of a result the handlers read:
    [data.DocumentDescription.LatestVersion]. *)
Record data := mkData { LatestVersion : option string }.

(** What the callback [function (err, data)] receives. *)
Inductive reply :=
| failure (err : Error)
| success (data : data).

(** The remote service: its reply may depend on every call made before. *)
Definition client := list request -> request -> reply.

Definition is_updateDocument (r : request) : bool :=
  match r with updateDocument _ _ _ _ => true | _ => false end.

Definition is_updateDocumentDefaultVersion (r : request) : bool :=
  match r with updateDocumentDefaultVersion _ _ => true | _ => false end.

End SSM.

(** ** The process and its promises *)

(** The state of the Node.js process that runs the Lambda: the module-level
    variable [latestVersion] (line 22, [undefined] when the module is
    loaded) and the remote calls issued so far, oldest first. *)
Record Process := mkProcess {
  latestVersion : option string;
  calls : list SSM.request;
}.

Definition initial : Process := {| latestVersion := None; calls := [] |}.

Inductive Settled (A : Type) :=
| Fulfilled (value : A)
| Rejected (reason : Error).

Arguments Fulfilled {A} value.
Arguments Rejected {A} reason.

(** A promise, run to its settlement: the remote calls of the source are
    strictly sequential, each issued from the callback of the one before. *)
Definition Promise (A : Type) : Type := Process -> Settled A * Process.

Definition resolve {A} (value : A) : Promise A := fun p => (Fulfilled value, p).

Definition reject {A} (reason : Error) : Promise A := fun p => (Rejected reason, p).

(** [promise.then(f)] for a handler [f] that returns a promise. *)
Definition then_ {A B} (promise : Promise A) (f : A -> Promise B) : Promise B :=
  fun p =>
    match promise p with
    | (Fulfilled value, p') => f value p'
    | (Rejected reason, p') => (Rejected reason, p')
    end.

(** [promise.catch(h)]. *)
Definition catch {A} (promise : Promise A) (h : Error -> Promise A) : Promise A :=
  fun p =>
    match promise p with
    | (Fulfilled value, p') => (Fulfilled value, p')
    | (Rejected reason, p') => h reason p'
    end.

Definition read_latestVersion {A} (k : option string -> Promise A) : Promise A :=
  fun p => k (latestVersion p) p.

Definition write_latestVersion {A} (v : option string) (k : Promise A) : Promise A :=
  fun p => k {| latestVersion := v; calls := calls p |}.

(** The remote calls a promise issues when it is run from [p]. *)
Definition issued {A} (promise : Promise A) (p : Process) : list SSM.request :=
  drop (length (calls p)) (calls (snd (promise p))).

Definition outcome {A} (promise : Promise A) (p : Process) : Settled A :=
  fst (promise p).

(** [appends m Q]: run from any state, [m] only adds calls at the end of
    the trace, and the calls it adds satisfy [Q]. *)
Definition appends {T} (m : Promise T) (Q : list SSM.request -> Prop) : Prop :=
  forall p, exists l, calls (snd (m p)) = calls p ++ l /\ Q l.

(** ** The handlers *)

Section Lambda.

Context (ssm : SSM.client).

(** One call of the client, with its callback. *)
Definition send {A} (req : SSM.request) (callback : SSM.reply -> Promise A) : Promise A :=
  fun p =>
    callback (ssm (calls p) req)
      {| latestVersion := latestVersion p; calls := calls p ++ [req] |}.

Definition Create (event : Event) : Promise Event :=
  send
    (SSM.createDocument
       (Name (ResourceProperties event))
       (JSON.stringify (Content (ResourceProperties event)))
       (DocumentType (ResourceProperties event))
       (JS.or_else (TargetType (ResourceProperties event)) defaultTargetType)
       (makeTags event (ResourceProperties event)))
    (fun r =>
       match r with
       | SSM.failure err => reject err
       | SSM.success _ =>
           resolve (addResponseValue "Name" (Name (ResourceProperties event)) event)
       end).

Definition updateDocument (event : Event) : Promise Event :=
  if String.eqb (JSON.stringify (Content (ResourceProperties event)))
                (JSON.stringify (Content (OldResourceProperties event)))
     && String.eqb (JS.or_else (targetType (ResourceProperties event)) defaultTargetType)
                   (JS.or_else (targetType (OldResourceProperties event)) defaultTargetType)
  then resolve event
  else
    send
      (SSM.updateDocument
         (Name (ResourceProperties event))
         (JSON.stringify (Content (ResourceProperties event)))
         (JS.or_else (targetType (ResourceProperties event)) defaultTargetType)
         "$LATEST")
      (fun r =>
         match r with
         | SSM.failure err =>
             if bool_decide (code err = Some "DuplicateDocumentContent")
             then resolve event
             else reject err
         | SSM.success data =>
             write_latestVersion (SSM.LatestVersion data) (resolve event)
         end).

Definition updateDocumentAddTags (event : Event) : Promise Event :=
  let oldTags := makeTags event (OldResourceProperties event) in
  let newTags := makeTags event (ResourceProperties event) in
  if String.eqb (JSON.stringify (JSON.of_tags oldTags))
                (JSON.stringify (JSON.of_tags newTags))
  then resolve event
  else
    send
      (SSM.addTagsToResource "Document" (Name (ResourceProperties event)) newTags)
      (fun r =>
         match r with
         | SSM.failure err => reject err
         | SSM.success _ => resolve event
         end).

Definition updateDocumentRemoveTags (event : Event) : Promise Event :=
  let oldTags := makeTags event (OldResourceProperties event) in
  let newTags := makeTags event (ResourceProperties event) in
  let tagsToRemove := getMissingTags oldTags newTags in
  if String.eqb (JSON.stringify (JSON.of_tags oldTags))
                (JSON.stringify (JSON.of_tags newTags))
     || (length tagsToRemove =? 0)
  then resolve event
  else
    send
      (SSM.removeTagsFromResource (Name (ResourceProperties event)) "Document" tagsToRemove)
      (fun r =>
         match r with
         | SSM.failure err => reject err
         | SSM.success _ => resolve event
         end).

Definition updateDocumentDefaultVersion (event : Event) : Promise Event :=
  match UpdateDefaultVersion (ResourceProperties event) with
  | None =>
      (* [undefined.toLowerCase()] throws inside the executor *)
      reject (TypeError "Cannot read properties of undefined (reading 'toLowerCase')")
  | Some flag =>
      if negb (String.eqb (JS.toLowerCase flag) "true")
      then resolve event
      else
        read_latestVersion (fun latestVersion =>
          if negb (JS.truthy latestVersion)
          then resolve event
          else
            send
              (SSM.updateDocumentDefaultVersion
                 (Name (ResourceProperties event))
                 (default "" latestVersion))
              (fun r =>
                 match r with
                 | SSM.failure err => reject err
                 | SSM.success _ => resolve event
                 end))
  end.

(** The four steps, chained with [then]. *)
Definition pipeline (event : Event) : Promise Event :=
  then_ (then_ (then_ (updateDocument event) updateDocumentAddTags)
           updateDocumentRemoveTags)
    updateDocumentDefaultVersion.

(** Every step resolves with the event object it was given, so [data] in
    the last handler is the object [event] that [addResponseValue]
    updates. *)
Definition Update (event : Event) : Promise Event :=
  catch
    (then_ (pipeline event)
       (fun data => resolve (addResponseValue "Name" (Name (ResourceProperties event)) data)))
    (fun err =>
       if JS.includes ["InvalidResourceId"; "InvalidDocument"] (code err)
       then Create event
       else reject err).

Definition Delete (event : Event) : Promise Event :=
  send
    (SSM.deleteDocument (Name (ResourceProperties event)))
    (fun r =>
       match r with
       | SSM.failure err => reject err
       | SSM.success _ => resolve event
       end).

End Lambda.

(** ** Vocabulary of the statements *)

(** The process after one more call has been issued. *)
Definition logged (p : Process) (req : SSM.request) : Process :=
  {| latestVersion := latestVersion p; calls := calls p ++ [req] |}.

(** The target type [updateDocument] compares and sends:
    [properties.targetType || defaultTargetType]. *)
Definition effectiveTargetType (properties : Properties) : string :=
  JS.or_else (targetType properties) defaultTargetType.

(** The condition under which [updateDocument] issues no call
    (lines 89-94). *)
Definition contentUnchanged (event : Event) : Prop :=
  JSON.stringify (Content (ResourceProperties event)) =
    JSON.stringify (Content (OldResourceProperties event))
  /\ effectiveTargetType (ResourceProperties event) =
       effectiveTargetType (OldResourceProperties event).

#[global] Instance contentUnchanged_dec (event : Event) : Decision (contentUnchanged event).
Proof. unfold contentUnchanged. apply _. Defined.

#[global] Instance Tag_eq_dec : EqDecision Tag.
Proof. solve_decision. Defined.

(** The requests the handlers build from an event. *)
Definition createDocumentRequest (event : Event) : SSM.request :=
  SSM.createDocument
    (Name (ResourceProperties event))
    (JSON.stringify (Content (ResourceProperties event)))
    (DocumentType (ResourceProperties event))
    (JS.or_else (TargetType (ResourceProperties event)) defaultTargetType)
    (makeTags event (ResourceProperties event)).

Definition updateDocumentRequest (event : Event) : SSM.request :=
  SSM.updateDocument
    (Name (ResourceProperties event))
    (JSON.stringify (Content (ResourceProperties event)))
    (effectiveTargetType (ResourceProperties event))
    "$LATEST".

Definition addTagsRequest (event : Event) : SSM.request :=
  SSM.addTagsToResource "Document" (Name (ResourceProperties event))
    (makeTags event (ResourceProperties event)).

Definition removeTagsRequest (event : Event) : SSM.request :=
  SSM.removeTagsFromResource (Name (ResourceProperties event)) "Document"
    (getMissingTags (makeTags event (OldResourceProperties event))
                    (makeTags event (ResourceProperties event))).

Definition defaultVersionRequest (event : Event) (version : string) : SSM.request :=
  SSM.updateDocumentDefaultVersion (Name (ResourceProperties event)) version.

(** Steps 2 to 4, run on the event that every step hands on. *)
Definition afterUpdateDocument (ssm : SSM.client) (event : Event) : Promise Event :=
  then_ (updateDocumentAddTags ssm event) (fun _ =>
  then_ (updateDocumentRemoveTags ssm event) (fun _ =>
  updateDocumentDefaultVersion ssm event)).

(** The two handlers at the end of [Update]'s chain (lines 68-80). *)
Definition finish (event : Event) : Event -> Promise Event :=
  fun data => resolve (addResponseValue "Name" (Name (ResourceProperties event)) data).

Definition recover (ssm : SSM.client) (event : Event) : Error -> Promise Event :=
  fun err =>
    if JS.includes ["InvalidResourceId"; "InvalidDocument"] (code err)
    then Create ssm event
    else reject err.

(** [settle m k]: run [m], then continue with [k] on its settlement. Both
    [then] and [catch] are instances. *)
Definition settle {A B} (m : Promise A) (k : Settled A -> Promise B) : Promise B :=
  fun p => let (r, p') := m p in k r p'.

(** [Update] with its chain of [then] and [catch] spelled out step by
    step: a rejected step hands its error to the [catch] handler, the last
    step hands the event to the handler that adds the name. *)
Definition after4 (ssm : SSM.client) (event : Event) (r : Settled Event) : Promise Event :=
  match r with
  | Rejected err => recover ssm event err
  | Fulfilled _ => finish event event
  end.

Definition after3 (ssm : SSM.client) (event : Event) (r : Settled Event) : Promise Event :=
  match r with
  | Rejected err => recover ssm event err
  | Fulfilled _ => settle (updateDocumentDefaultVersion ssm event) (after4 ssm event)
  end.

Definition after2 (ssm : SSM.client) (event : Event) (r : Settled Event) : Promise Event :=
  match r with
  | Rejected err => recover ssm event err
  | Fulfilled _ => settle (updateDocumentRemoveTags ssm event) (after3 ssm event)
  end.

Definition after1 (ssm : SSM.client) (event : Event) (r : Settled Event) : Promise Event :=
  match r with
  | Rejected err => recover ssm event err
  | Fulfilled _ => settle (updateDocumentAddTags ssm event) (after2 ssm event)
  end.

Definition stepwise (ssm : SSM.client) (event : Event) : Promise Event :=
  settle (updateDocument ssm event) (after1 ssm event).

(** The calls after the last step: those of the [catch] handler when the
    step is rejected. *)
Definition ending (ssm : SSM.client) (event : Event) (r : Settled Event) (p : Process)
    : list SSM.request :=
  match r with
  | Rejected err => issued (recover ssm event err) p
  | Fulfilled _ => []
  end.

(** The state in which step 4 starts, when steps 1 to 3 are fulfilled. *)
Definition beforeStep4 (ssm : SSM.client) (event : Event) (p : Process) : option Process :=
  match updateDocument ssm event p with
  | (Fulfilled _, p1) =>
      match updateDocumentAddTags ssm event p1 with
      | (Fulfilled _, p2) =>
          match updateDocumentRemoveTags ssm event p2 with
          | (Fulfilled _, p3) => Some p3
          | (Rejected _, _) => None
          end
      | (Rejected _, _) => None
      end
  | (Rejected _, _) => None
  end.

(** Step 4 promotes: the flag is ["true"] up to case and [latestVersion]
    is set (lines 191-206). *)
Definition promotes (flag : string) (p : Process) : bool :=
  String.eqb (JS.toLowerCase flag) "true" && JS.truthy (latestVersion p).

(** The calls an update can issue. *)
Definition requestOf (event : Event) (r : SSM.request) : Prop :=
  r = updateDocumentRequest event
  \/ r = addTagsRequest event
  \/ r = removeTagsRequest event
  \/ (exists v, r = defaultVersionRequest event v)
  \/ r = createDocumentRequest event.

(** A trace of at most the one call [req]. *)
Definition at_most (req : SSM.request) (l : list SSM.request) : Prop :=
  l = [] \/ l = [req].

(** A tag with its value forgotten. *)
Definition forgetValue (t : Tag) : Tag := {| Key := Key t; Value := None |}.

(** The property sets whose user tag mapping, when present, is an object. *)
Definition wf_properties (properties : Properties) : Prop :=
  match Tags properties with
  | Some o => JS.wf_object o
  | None => True
  end.

(** A remove-tags call that names none of the system tag keys; any other
    call. *)
Definition keepsSystemTags (r : SSM.request) : Prop :=
  match r with
  | SSM.removeTagsFromResource _ _ keys => Forall (fun k => ~ In k keys) systemTagKeys
  | _ => True
  end.

(** ** Concrete events and remote services *)

Module Scenario.

Definition document (version : string) : json :=
  JObject [("schemaVersion", JString version); ("mainSteps", JArray [])].

Definition properties (content : json) (flag : option string)
    (tags : option (JS.object string)) : Properties :=
  {| Name := "doc1";
     Content := content;
     DocumentType := Some "Automation";
     TargetType := None;
     targetType := None;
     UpdateDefaultVersion := flag;
     StackName := Some "demo";
     Tags := tags |}.

Definition event (old new : Properties) : Event :=
  {| StackId := "arn:aws:cloudformation:eu-west-1:123456789012:stack/demo/1";
     LogicalResourceId := "Document";
     ResourceProperties := new;
     OldResourceProperties := old;
     ResponseValues := ∅ |}.

Definition awsError (c : string) : Error :=
  {| code := Some c; message := "the request was refused" |}.

(** A service that accepts every call; an update yields [version]. *)
Definition accepting (version : string) : SSM.client :=
  fun _ _ => SSM.success {| SSM.LatestVersion := Some version |}.

(** A service that refuses the calls selected by [which] with the error
    code [c], and accepts the others. *)
Definition refusing (which : SSM.request -> bool) (c : string) : SSM.client :=
  fun _ req =>
    if which req then SSM.failure (awsError c)
    else SSM.success {| SSM.LatestVersion := Some "2" |}.

(** The content changes from version 1.0 to 2.0; the flag is ["true"]. *)
Definition contentChange : Event :=
  event (properties (document "1.0") (Some "true") (Some [("x", "1")]))
        (properties (document "2.0") (Some "true") (Some [("x", "1")])).

(** Nothing changes; the flag is ["true"]. *)
Definition noChange : Event :=
  event (properties (document "2.0") (Some "true") (Some [("x", "1")]))
        (properties (document "2.0") (Some "true") (Some [("x", "1")])).

(** The same user tags, listed in another order. *)
Definition tagsReordered : Event :=
  event (properties (document "1.0") (Some "true") (Some [("a", "1"); ("b", "2")]))
        (properties (document "1.0") (Some "true") (Some [("b", "2"); ("a", "1")])).

(** The content changes and the flag is absent. *)
Definition flagAbsent : Event :=
  event (properties (document "1.0") None None)
        (properties (document "2.0") None None).

(** The target type that [Create] reads changes, nothing else does. *)
Definition targetTypeChange : Event :=
  event (properties (document "1.0") (Some "true") None)
        {| Name := "doc1";
           Content := document "1.0";
           DocumentType := Some "Automation";
           TargetType := Some "/AWS::EC2::Instance";
           targetType := None;
           UpdateDefaultVersion := Some "true";
           StackName := Some "demo";
           Tags := None |}.

(** Only a user tag is added: from [x] to [x] and [y]. *)
Definition tagAdded : Event :=
  event (properties (document "1.0") (Some "true") (Some [("x", "1")]))
        (properties (document "1.0") (Some "true") (Some [("x", "1"); ("y", "2")])).

(** A user tag is dropped and another one changes its value. *)
Definition tagDropped : Event :=
  event (properties (document "1.0") (Some "true") (Some [("x", "1"); ("y", "2")]))
        (properties (document "1.0") (Some "true") (Some [("x", "3")])).

End Scenario.

(** ** Vocabulary of the further properties *)

(** The event with other values under the key [TargetType] of its two
    property sets. *)
Definition withTargetType (new old : option string) (event : Event) : Event :=
  let change (tt : option string) (properties : Properties) :=
    {| Name := Name properties;
       Content := Content properties;
       DocumentType := DocumentType properties;
       TargetType := tt;
       targetType := targetType properties;
       UpdateDefaultVersion := UpdateDefaultVersion properties;
       StackName := StackName properties;
       Tags := Tags properties |} in
  {| StackId := StackId event;
     LogicalResourceId := LogicalResourceId event;
     ResourceProperties := change new (ResourceProperties event);
     OldResourceProperties := change old (OldResourceProperties event);
     ResponseValues := ResponseValues event |}.

(** The keys of the user tag mapping of a property set, none when the
    mapping is absent. *)
Definition userTagKeys (properties : Properties) : list string :=
  match Tags properties with
  | Some o => JS.keys o
  | None => []
  end.

(** A promise that leaves [latestVersion] as it finds it. *)
Definition keeps_latestVersion {A} (m : Promise A) : Prop :=
  forall p, latestVersion (snd (m p)) = latestVersion p.

(** ** Well-formed documents *)

(** The text of a number is not empty and is made of digits, signs, the
    decimal point and the exponent mark. *)
Definition number_char (c : ascii) : bool :=
  let n := nat_of_ascii c in
  ((48 <=? n) && (n <=? 57))
  || (n =? 45) || (n =? 43) || (n =? 46) || (n =? 101) || (n =? 69).

Fixpoint number_chars (s : string) : bool :=
  match s with
  | EmptyString => true
  | String c r => number_char c && number_chars r
  end.

Definition wf_number (text : string) : bool :=
  match text with
  | EmptyString => false
  | String _ _ => number_chars text
  end.

(** A document all of whose numbers are well formed. *)
Fixpoint wf_json (v : json) : bool :=
  match v with
  | JNumber text => wf_number text
  | JArray items => forallb wf_json items
  | JObject fields => forallb (fun kv => wf_json (snd kv)) fields
  | _ => true
  end.

(** The text after a serialized value: empty, or starting with a
    character that no number contains. *)
Definition stops (rest : string) : bool :=
  match rest with
  | EmptyString => true
  | String c _ => negb (number_char c)
  end.

(** The first character of a serialized value. *)
Definition first_char (v : json) : ascii :=
  match v with
  | JNull => "n"
  | JBool true => "t"
  | JBool false => "f"
  | JNumber (String c _) => c
  | JNumber EmptyString => "0"
  | JString _ => JSON.dquote
  | JArray _ => "["
  | JObject _ => "{"
  end.

Definition value_start (c : ascii) : bool :=
  number_char c
  || Ascii.eqb c "n" || Ascii.eqb c "t" || Ascii.eqb c "f"
  || Ascii.eqb c JSON.dquote || Ascii.eqb c "[" || Ascii.eqb c "{".

(** The items of an array after the first one, and the fields of an
    object after the first one, written with the text that follows. *)
Fixpoint more_items (items : list json) (rest : string) : string :=
  match items with
  | [] => rest
  | x :: items' => "," +:+ JSON.stringify x +:+ more_items items' rest
  end.

Fixpoint more_fields (fields : list (string * json)) (rest : string) : string :=
  match fields with
  | [] => rest
  | kv :: fields' =>
      "," +:+ JSON.quote (fst kv) +:+ ":" +:+ JSON.stringify (snd kv)
        +:+ more_fields fields' rest
  end.

(** The kind of a value, as its first character tells it. *)
Definition kind_of (v : json) : nat :=
  match v with
  | JNull => 0
  | JBool true => 1
  | JBool false => 2
  | JNumber _ => 3
  | JString _ => 4
  | JArray _ => 5
  | JObject _ => 6
  end.

(** [v] is the only well-formed document whose serialization starts a text
    the way the serialization of [v] does. *)
Definition determined (v : json) : Prop :=
  wf_json v = true ->
  forall v' r r',
    wf_json v' = true -> stops r = true -> stops r' = true ->
    JSON.stringify v +:+ r = JSON.stringify v' +:+ r' ->
    v = v' /\ r = r'.

(** ** [fixBooleanParameters] (lines 293-306) *)

(** A synchronous call returns a value or throws. *)
Inductive Completion (A : Type) :=
| Returned (a : A)
| Thrown (e : Error).

Arguments Returned {A} a.
Arguments Thrown {A} e.

#[global] Instance Completion_ret : MRet Completion := fun A a => Returned a.

#[global] Instance Completion_bind : MBind Completion := fun A B k m =>
  match m with
  | Returned a => k a
  | Thrown e => Thrown e
  end.

(** The operations of JavaScript the function applies to the values of the
    parsed JSON payload. An absent property reads as [undefined], which is
    [None]. *)
Module Value.

(** [typeof v]. *)
Definition typeof (v : option json) : string :=
  match v with
  | None => "undefined"
  | Some JNull => "object"
  | Some (JBool _) => "boolean"
  | Some (JNumber _) => "number"
  | Some (JString _) => "string"
  | Some (JArray _) => "object"
  | Some (JObject _) => "object"
  end.

(** [v.name], for the names the source reads ([parameters], [type] and
    [default]): none of them is an index, and no prototype defines them,
    so only an object's own property is found. Reading a property of
    [null] throws. *)
Definition property (v : json) (name : string) : Completion (option json) :=
  match v with
  | JNull => Thrown (TypeError ("Cannot read properties of null (reading '" +:+ name +:+ "')"))
  | JObject fields => Returned (JS.get fields name)
  | _ => Returned None
  end.

(** [name in v]: throws when [v] is not an object. *)
Definition has (v : json) (name : string) : Completion bool :=
  match v with
  | JObject fields => Returned (bool_decide (is_Some (JS.get fields name)))
  | JArray _ => Returned false
  | _ => Thrown (TypeError ("Cannot use 'in' operator to search for '" +:+ name +:+ "'"))
  end.

(** [o[name] = x] on an object: the property keeps its place when it
    exists and is added last otherwise. *)
Fixpoint set (o : JS.object json) (name : string) (x : json) : JS.object json :=
  match o with
  | [] => [(name, x)]
  | (k, v) :: r => if String.eqb k name then (k, x) :: r else (k, v) :: set r name x
  end.

Definition notPrimitive : Error := TypeError "Cannot convert object to primitive value".

(** The conversion of a value to a string, which is how an array or an
    object is turned into a primitive. An object of the payload has no
    callable property of its own: when it has a property [toString] of its
    own, that property hides [Object.prototype.toString], no method is left
    that yields a primitive, and the conversion throws; otherwise the
    object reads ["[object Object]"]. An array joins the conversions of its
    items with commas, from left to right, [null] items as the empty
    string. *)
Fixpoint toString (v : json) : Completion string :=
  match v with
  | JNull => Returned "null"
  | JBool true => Returned "true"
  | JBool false => Returned "false"
  | JNumber text => Returned text
  | JString s => Returned s
  | JArray items =>
      texts ← mapM (fun x => match x with JNull => Returned "" | _ => toString x end) items;
      Returned (JSON.join "," texts)
  | JObject fields =>
      if bool_decide (is_Some (JS.get fields "toString"))
      then Thrown notPrimitive
      else Returned "[object Object]"
  end.

(** [v == lit] for a string literal that does not read as a number, as
    ['Boolean'] and ['true'] are: a string is compared as it is, an array
    or an object after its conversion to a primitive, which may throw;
    [null] and [undefined] equal no string, and a boolean or a number is
    compared with the literal read as a number, which is [NaN]. *)
Definition looseEq (v : option json) (lit : string) : Completion bool :=
  match v with
  | Some (JString s) => Returned (String.eqb s lit)
  | Some (JArray items) => text ← toString (JArray items); Returned (String.eqb text lit)
  | Some (JObject fields) => text ← toString (JObject fields); Returned (String.eqb text lit)
  | _ => Returned false
  end.

(** The values whose conversion to a string returns: no object with a
    property [toString] of its own is met on the way through the
    arrays. *)
Fixpoint convertible (v : json) : bool :=
  match v with
  | JArray items => forallb convertible items
  | JObject fields => negb (bool_decide (is_Some (JS.get fields "toString")))
  | _ => true
  end.

(** The values that [==] compares with a string without throwing. *)
Definition comparable (v : option json) : bool :=
  match v with
  | Some v => convertible v
  | None => true
  end.

(** [v == lit] is [true]: the comparison returns, and returns [true]. *)
Definition equals (v : option json) (lit : string) : bool :=
  match looseEq v lit with
  | Returned b => b
  | Thrown _ => false
  end.

End Value.

(** The body of the loop (lines 300-303) for the entry whose value is
    [param]: what the entry's value is afterwards. *)
Definition fixParameter (param : json) : Completion json :=
  type ← Value.property param "type";
  isBoolean ← Value.looseEq type "Boolean";
  if (isBoolean : bool) then
    present ← Value.has param "default";
    if (present : bool) then
      default ← Value.property param "default";
      value ← Value.looseEq default "true";
      match param with
      | JObject fields => Returned (JObject (Value.set fields "default" (JBool value)))
      | _ => Returned param
      end
    else Returned param
  else Returned param.

(** The loop over [Object.entries(parameters)] (lines 297-304): the
    entries of an object are its properties, those of an array its items
    under their indices, and [null] has none to enumerate. The loop stops
    at the first entry that throws. *)
Definition fixParameters (parameters : json) : Completion json :=
  match parameters with
  | JNull => Thrown (TypeError "Cannot convert undefined or null to object")
  | JArray items =>
      items' ← mapM fixParameter items;
      Returned (JArray items')
  | JObject fields =>
      fields' ← mapM (fun kv => param ← fixParameter (snd kv); Returned (fst kv, param))
                     fields;
      Returned (JObject fields')
  | _ => Returned parameters
  end.

(** The event with another document as the [Content] of its desired
    state. *)
Definition withContent (content : json) (event : Event) : Event :=
  let properties := ResourceProperties event in
  {| StackId := StackId event;
     LogicalResourceId := LogicalResourceId event;
     ResourceProperties :=
       {| Name := Name properties;
          Content := content;
          DocumentType := DocumentType properties;
          TargetType := TargetType properties;
          targetType := targetType properties;
          UpdateDefaultVersion := UpdateDefaultVersion properties;
          StackName := StackName properties;
          Tags := Tags properties |};
     OldResourceProperties := OldResourceProperties event;
     ResponseValues := ResponseValues event |}.

(** The function updates the parameters in place, inside the event it was
    given and returns; here the returned event carries the updated
    document. *)
Definition fixBooleanParameters (event : Event) : Completion Event :=
  let content := Content (ResourceProperties event) in
  parameters ← Value.property content "parameters";
  if negb (String.eqb (Value.typeof parameters) "object") then Returned event
  else
    match content, parameters with
    | JObject fields, Some parameters =>
        parameters' ← fixParameters parameters;
        Returned (withContent (JObject (Value.set fields "parameters" parameters')) event)
    | _, _ => Returned event
    end.

(** The values of the entries the loop visits. *)
Definition parametersOf (content : json) : list json :=
  match content with
  | JObject fields =>
      match JS.get fields "parameters" with
      | Some (JObject parameters) => map snd parameters
      | Some (JArray items) => items
      | _ => []
      end
  | _ => []
  end.

(** The parameters the loop converts: objects whose [type] is ['Boolean']
    and that have a [default]. *)
Definition isBooleanParameter (param : json) : bool :=
  match param with
  | JObject fields =>
      Value.equals (JS.get fields "type") "Boolean"
      && bool_decide (is_Some (JS.get fields "default"))
  | _ => false
  end.

(** [param.default]. *)
Definition defaultOf (param : json) : option json :=
  match param with
  | JObject fields => JS.get fields "default"
  | _ => None
  end.

(** The entries on which the body of the loop throws: [null], whose
    [type] cannot be read; an object whose [type] cannot be compared; and
    a Boolean parameter whose [default] cannot be compared. *)
Definition rejects (param : json) : bool :=
  match param with
  | JNull => true
  | JObject fields =>
      negb (Value.comparable (JS.get fields "type"))
      || (isBooleanParameter param && negb (Value.comparable (JS.get fields "default")))
  | _ => false
  end.

(** What the body of the loop leaves in the place of an entry it does not
    throw on: a Boolean parameter with the boolean that its default
    compares to ['true'] as stored under [default], in the place of the
    old default; any other entry itself. *)
Definition convert (param : json) : json :=
  match param with
  | JObject fields =>
      if isBooleanParameter param
      then JObject (Value.set fields "default"
                      (JBool (Value.equals (JS.get fields "default") "true")))
      else param
  | _ => param
  end.

(** A template with a Boolean and a String parameter, as the payload of
    the event carries it: the boolean default arrives as a string. *)
Module Payload.

Definition parameter (type : string) (default : json) : json :=
  JObject [("type", JString type); ("default", default)].

Definition content (force : json) : json :=
  JObject [("schemaVersion", JString "0.3");
           ("parameters",
             JObject [("Force", parameter "Boolean" force);
                      ("Target", parameter "String" (JString "true"))]);
           ("mainSteps", JArray [])].

(** An update event whose previous and desired state are the same. *)
Definition unchanged : Event :=
  Scenario.event
    (Scenario.properties (content (JString "true")) (Some "true") None)
    (Scenario.properties (content (JString "true")) (Some "true") None).

End Payload.

(** The document with other values for the entries the loop visits, each
    in the place of the one it stands for: under the same name and at the
    same position when [parameters] is an object, at the same index when
    it is an array. Nothing else in the document changes. *)
Definition withParameters (content : json) (params : list json) : json :=
  match content with
  | JObject fields =>
      match JS.get fields "parameters" with
      | Some (JObject parameters) =>
          JObject (Value.set fields "parameters"
                     (JObject (zip_with (fun kv param => (fst kv, param)) parameters params)))
      | Some (JArray _) => JObject (Value.set fields "parameters" (JArray params))
      | _ => content
      end
  | _ => content
  end.

(** What the loop makes of an entry, as reading its properties shows it: a
    Boolean parameter gets the boolean that its default compares to
    ['true'] as, whatever else it holds is kept, and every other entry is
    left as it is. *)
Definition converted (param param' : json) : Prop :=
  if isBooleanParameter param
  then defaultOf param' = Some (JBool (Value.equals (defaultOf param) "true"))
       /\ forall name, name <> "default" ->
            Value.property param' name = Value.property param name
  else param' = param.

(** A Boolean parameter whose default is the boolean [false]: the only
    ones the loop leaves as they are. *)
Definition settled (param : json) : Prop :=
  isBooleanParameter param = true -> defaultOf param = Some (JBool false).

(** * Properties *)

(** ** The tag differ *)

Section TagDiffer.

Implicit Types (oldTags newTags : TagList) (t : Tag) (k : string).

Lemma forEach_push {A B} (g : A -> B) (l : list A) (acc : list B) :
  JS.forEach l (fun acc x => JS.push acc (g x)) acc = acc ++ map g l.
Proof.
  unfold JS.forEach, JS.push.
  revert acc; induction l as [|x l IH]; intros acc; simpl.
  - by rewrite app_nil_r.
  - by rewrite IH, <- app_assoc.
Qed.

Lemma get_entry {V} (o : JS.object V) (kv : string * V) :
  JS.wf_object o -> In kv o -> JS.get o (fst kv) = Some (snd kv).
Proof.
  unfold JS.wf_object, JS.keys.
  induction o as [|[k v] o IH]; simpl; intros Hnd Hin; [done|].
  apply NoDup_cons in Hnd as [Hk Hnd].
  destruct Hin as [<-|Hin]; simpl.
  - by rewrite String.eqb_refl.
  - destruct (String.eqb_spec k (fst kv)) as [->|_]; [|by apply IH].
    exfalso; apply Hk. apply list_elem_of_In, in_map_iff. by exists kv.
Qed.

Lemma makeTags_unfold event properties :
  makeTags event properties =
    systemTags event properties ++
    match Tags properties with
    | Some o => map (fun key => {| Key := key; Value := JS.get o key |}) (JS.keys o)
    | None => []
    end.
Proof.
  unfold makeTags. destruct (Tags properties) as [o|].
  - apply forEach_push.
  - by rewrite app_nil_r.
Qed.

Lemma existsb_eqb_In k (l : list string) :
  existsb (String.eqb k) l = true <-> In k l.
Proof.
  rewrite existsb_exists. split.
  - intros (x & Hx & E). by apply String.eqb_eq in E as ->.
  - intros H. exists k. by rewrite String.eqb_refl.
Qed.

Lemma missingTags_spec newTags t :
  missingTags newTags t = negb (existsb (String.eqb (Key t)) (map Key newTags)).
Proof.
  unfold missingTags.
  induction newTags as [|n newTags IH]; simpl; [done|].
  rewrite (String.eqb_sym (Key t)).
  destruct (String.eqb (Key n) (Key t)); simpl; [done|apply IH].
Qed.

Lemma getMissingTags_eq_missingKeys oldTags newTags :
  getMissingTags oldTags newTags = missingKeys oldTags newTags.
Proof.
  unfold getMissingTags.
  induction oldTags as [|t oldTags IH]; simpl; [done|].
  rewrite missingTags_spec.
  destruct (existsb _ _); simpl; by rewrite IH.
Qed.

Lemma In_missingKeys oldTags newTags k :
  In k (missingKeys oldTags newTags) <-> In k (map Key oldTags) /\ ~ In k (map Key newTags).
Proof.
  induction oldTags as [|t oldTags IH]; simpl; [tauto|].
  destruct (existsb _ _) eqn:E; simpl; rewrite IH.
  - apply existsb_eqb_In in E. split; [tauto|]. intros [[<-|H] Hn]; tauto.
  - assert (~ In (Key t) (map Key newTags)) as Hn.
    { rewrite <- existsb_eqb_In. by rewrite E. }
    split; [|tauto]. intros [<-|H]; tauto.
Qed.

Lemma missingKeys_sublist oldTags newTags :
  sublist (missingKeys oldTags newTags) (map Key oldTags).
Proof.
  induction oldTags as [|t oldTags IH]; simpl; [constructor|].
  destruct (existsb _ _); by constructor.
Qed.

Lemma missingKeys_keys_only oldTags newTags oldTags' newTags' :
  map Key oldTags = map Key oldTags' -> map Key newTags = map Key newTags' ->
  missingKeys oldTags newTags = missingKeys oldTags' newTags'.
Proof.
  intros Ho Hn. revert oldTags' Ho.
  induction oldTags as [|t oldTags IH]; intros [|t' oldTags'] Ho; simpl in *; try done.
  injection Ho as Hk Ho. rewrite Hk, Hn, (IH _ Ho). done.
Qed.

Lemma systemTagKeys_in_makeTags event properties k :
  In k systemTagKeys -> In k (map Key (makeTags event properties)).
Proof.
  intros Hk. rewrite makeTags_unfold, map_app. apply in_or_app. by left.
Qed.

End TagDiffer.

(** ** Promises and the calls they issue *)

Section Traces.

Context {A B : Type}.

Implicit Types (p : Process) (Q : list SSM.request -> Prop).

Lemma appends_issued {T} (m : Promise T) Q p : appends m Q -> Q (issued m p).
Proof.
  intros H. destruct (H p) as (l & E & HQ). unfold issued.
  by rewrite E, drop_app_length.
Qed.

Lemma appends_calls {T} (m : Promise T) Q p :
  appends m Q -> calls (snd (m p)) = calls p ++ issued m p.
Proof.
  intros H. destruct (H p) as (l & E & _). unfold issued.
  by rewrite E, drop_app_length.
Qed.

Lemma appends_weaken {T} (m : Promise T) Q Q' :
  (forall l, Q l -> Q' l) -> appends m Q -> appends m Q'.
Proof. intros HQ H p. destruct (H p) as (l & E & Hl). eauto. Qed.

Lemma appends_resolve (v : A) Q : Q [] -> appends (resolve v) Q.
Proof. intros HQ p. exists []. by rewrite app_nil_r. Qed.

Lemma appends_reject (e : Error) Q : Q [] -> appends (@reject A e) Q.
Proof. intros HQ p. exists []. by rewrite app_nil_r. Qed.

Lemma appends_send ssm req (callback : SSM.reply -> Promise A) Q' Q :
  (forall r, appends (callback r) Q') ->
  (forall l, Q' l -> Q (req :: l)) ->
  appends (send ssm req callback) Q.
Proof.
  intros Hc HQ p. unfold send.
  destruct (Hc (ssm (calls p) req)
              {| latestVersion := latestVersion p; calls := calls p ++ [req] |})
    as (l & E & Hl).
  exists (req :: l). rewrite E. simpl. rewrite <- app_assoc. split; [done|by apply HQ].
Qed.

Lemma appends_read_latestVersion (k : option string -> Promise A) Q :
  (forall v, appends (k v) Q) -> appends (read_latestVersion k) Q.
Proof. intros H p. apply H. Qed.

Lemma appends_settle (m : Promise A) (k : Settled A -> Promise B) Q1 Q2 :
  appends m Q1 -> (forall r, appends (k r) Q2) ->
  appends (settle m k) (fun l => exists l1 l2, l = l1 ++ l2 /\ Q1 l1 /\ Q2 l2).
Proof.
  intros Hm Hk p. unfold settle.
  destruct (Hm p) as (l1 & E1 & H1).
  destruct (m p) as [r p1]; simpl in *.
  destruct (Hk r p1) as (l2 & E2 & H2).
  exists (l1 ++ l2). rewrite E2, E1, app_assoc. eauto 6.
Qed.

Lemma appends_settle_Forall (P : SSM.request -> Prop)
    (m : Promise A) (k : Settled A -> Promise B) :
  appends m (Forall P) -> (forall r, appends (k r) (Forall P)) ->
  appends (settle m k) (Forall P).
Proof.
  intros Hm Hk. eapply appends_weaken; [|exact (appends_settle _ _ _ _ Hm Hk)].
  intros l (l1 & l2 & -> & H1 & H2). apply Forall_app. done.
Qed.

(** The calls of a promise and of what follows its settlement. *)
Lemma issued_settle (m : Promise A) (k : Settled A -> Promise B) Q1 Q2 p :
  appends m Q1 -> (forall r, appends (k r) Q2) ->
  issued (settle m k) p = issued m p ++ issued (k (fst (m p))) (snd (m p)).
Proof.
  intros Hm Hk. unfold issued at 1, settle.
  pose proof (appends_calls _ _ p Hm) as E1.
  destruct (m p) as [r p1]; simpl in *.
  rewrite (appends_calls _ _ p1 (Hk r)), E1, <- app_assoc.
  by rewrite drop_app_length.
Qed.

End Traces.

Lemma at_most_Forall (P : SSM.request -> Prop) req l :
  P req -> at_most req l -> Forall P l.
Proof.
  intros HP [->| ->]; [by apply Forall_nil|].
  apply Forall_cons; split; [done|by apply Forall_nil].
Qed.

Lemma filter_at_most (f : SSM.request -> bool) req l :
  f req = false -> at_most req l -> List.filter f l = [].
Proof. intros Hf [->| ->]; simpl; [done|by rewrite Hf]. Qed.

(** ** The handlers, step by step *)

Section Steps.

Context (ssm : SSM.client).

Implicit Types (event : Event) (p : Process).

Lemma contentUnchanged_test event :
  String.eqb (JSON.stringify (Content (ResourceProperties event)))
             (JSON.stringify (Content (OldResourceProperties event)))
  && String.eqb (JS.or_else (targetType (ResourceProperties event)) defaultTargetType)
                (JS.or_else (targetType (OldResourceProperties event)) defaultTargetType)
  = true <-> contentUnchanged event.
Proof.
  unfold contentUnchanged, effectiveTargetType.
  by rewrite andb_true_iff, !String.eqb_eq.
Qed.

(** Step 1, when nothing changed: no call, the state is left as it is. *)
Lemma updateDocument_unchanged event p :
  contentUnchanged event -> updateDocument ssm event p = (Fulfilled event, p).
Proof.
  intros H. apply contentUnchanged_test in H.
  unfold updateDocument. by rewrite H.
Qed.

(** Step 1, when something changed: one call, and the three cases of its
    callback. *)
Lemma updateDocument_changed event p :
  ~ contentUnchanged event ->
  updateDocument ssm event p =
    match ssm (calls p) (updateDocumentRequest event) with
    | SSM.failure err =>
        if bool_decide (code err = Some "DuplicateDocumentContent")
        then (Fulfilled event, logged p (updateDocumentRequest event))
        else (Rejected err, logged p (updateDocumentRequest event))
    | SSM.success data =>
        (Fulfilled event,
         {| latestVersion := SSM.LatestVersion data;
            calls := calls p ++ [updateDocumentRequest event] |})
    end.
Proof.
  intros H. rewrite <- contentUnchanged_test in H. apply not_true_is_false in H.
  unfold updateDocument. rewrite H. unfold send, updateDocumentRequest, effectiveTargetType.
  destruct (ssm _ _) as [err|data]; [|done].
  by destruct (bool_decide _).
Qed.

Lemma updateDocument_issued event p :
  issued (updateDocument ssm event) p =
    if decide (contentUnchanged event) then [] else [updateDocumentRequest event].
Proof.
  unfold issued. destruct (decide _) as [H|H].
  - rewrite updateDocument_unchanged by done. simpl. by rewrite drop_all.
  - rewrite updateDocument_changed by done.
    destruct (ssm _ _) as [err|data]; [destruct (bool_decide _)|]; simpl;
      by rewrite drop_app_length.
Qed.

Lemma updateDocument_appends event :
  appends (updateDocument ssm event) (at_most (updateDocumentRequest event)).
Proof.
  intros p. exists (issued (updateDocument ssm event) p). split.
  - destruct (decide (contentUnchanged event)) as [H|H].
    + rewrite updateDocument_issued, decide_True by done.
      rewrite updateDocument_unchanged by done. simpl. by rewrite app_nil_r.
    + rewrite updateDocument_issued, decide_False by done.
      rewrite updateDocument_changed by done.
      destruct (ssm _ _) as [err|data]; [destruct (bool_decide _)|]; done.
  - rewrite updateDocument_issued. unfold at_most. case_decide; auto.
Qed.

(** Every step resolves with the event it was given. *)
Lemma updateDocument_fulfilled event p data p' :
  updateDocument ssm event p = (Fulfilled data, p') -> data = event.
Proof.
  unfold updateDocument, send, write_latestVersion, resolve, reject.
  repeat case_match; congruence.
Qed.

Lemma updateDocumentAddTags_appends event :
  appends (updateDocumentAddTags ssm event) (at_most (addTagsRequest event)).
Proof.
  unfold updateDocumentAddTags. cbv zeta. case_match.
  - apply appends_resolve. by left.
  - eapply appends_send with (Q' := fun l => l = []).
    + intros [err|data]; [by apply appends_reject|by apply appends_resolve].
    + intros l ->. by right.
Qed.

Lemma updateDocumentAddTags_fulfilled event p data p' :
  updateDocumentAddTags ssm event p = (Fulfilled data, p') -> data = event.
Proof.
  unfold updateDocumentAddTags, send, resolve, reject.
  repeat case_match; congruence.
Qed.

Lemma updateDocumentRemoveTags_appends event :
  appends (updateDocumentRemoveTags ssm event) (at_most (removeTagsRequest event)).
Proof.
  unfold updateDocumentRemoveTags. cbv zeta. case_match.
  - apply appends_resolve. by left.
  - eapply appends_send with (Q' := fun l => l = []).
    + intros [err|data]; [by apply appends_reject|by apply appends_resolve].
    + intros l ->. by right.
Qed.

Lemma updateDocumentRemoveTags_fulfilled event p data p' :
  updateDocumentRemoveTags ssm event p = (Fulfilled data, p') -> data = event.
Proof.
  unfold updateDocumentRemoveTags, send, resolve, reject.
  repeat case_match; congruence.
Qed.

Lemma updateDocumentDefaultVersion_appends event :
  appends (updateDocumentDefaultVersion ssm event)
    (fun l => l = [] \/ exists v, l = [defaultVersionRequest event v]).
Proof.
  unfold updateDocumentDefaultVersion.
  destruct (UpdateDefaultVersion _) as [flag|]; [|apply appends_reject; by left].
  case_match; [apply appends_resolve; by left|].
  apply appends_read_latestVersion. intros v.
  case_match; [apply appends_resolve; by left|].
  eapply appends_send with (Q' := fun l => l = []).
  - intros [err|data]; [by apply appends_reject|by apply appends_resolve].
  - intros l ->. right. by eexists.
Qed.

Lemma updateDocumentDefaultVersion_fulfilled event p data p' :
  updateDocumentDefaultVersion ssm event p = (Fulfilled data, p') -> data = event.
Proof.
  unfold updateDocumentDefaultVersion, read_latestVersion, send, resolve, reject.
  repeat case_match; congruence.
Qed.

Lemma Create_appends event :
  appends (Create ssm event) (fun l => l = [createDocumentRequest event]).
Proof.
  unfold Create. eapply appends_send with (Q' := fun l => l = []).
  - intros [err|data]; [by apply appends_reject|by apply appends_resolve].
  - by intros l ->.
Qed.

Lemma updateDocumentAddTags_latestVersion event p :
  latestVersion (snd (updateDocumentAddTags ssm event p)) = latestVersion p.
Proof.
  unfold updateDocumentAddTags, send, resolve, reject.
  cbv zeta. repeat case_match; done.
Qed.

Lemma updateDocumentRemoveTags_latestVersion event p :
  latestVersion (snd (updateDocumentRemoveTags ssm event p)) = latestVersion p.
Proof.
  unfold updateDocumentRemoveTags, send, resolve, reject.
  cbv zeta. repeat case_match; done.
Qed.

(** Step 4 in full. *)
Lemma updateDocumentDefaultVersion_cases event p :
  updateDocumentDefaultVersion ssm event p =
    match UpdateDefaultVersion (ResourceProperties event) with
    | None =>
        (Rejected (TypeError "Cannot read properties of undefined (reading 'toLowerCase')"), p)
    | Some flag =>
        if promotes flag p then
          let req := defaultVersionRequest event (default "" (latestVersion p)) in
          (match ssm (calls p) req with
           | SSM.failure err => Rejected err
           | SSM.success _ => Fulfilled event
           end, logged p req)
        else (Fulfilled event, p)
    end.
Proof.
  unfold updateDocumentDefaultVersion, promotes.
  destruct (UpdateDefaultVersion _) as [flag|]; [|done].
  destruct (String.eqb _ _); simpl; [|done].
  unfold read_latestVersion. destruct (JS.truthy _); simpl; [|done].
  unfold send, defaultVersionRequest, logged. by destruct (ssm _ _).
Qed.

Lemma updateDocumentDefaultVersion_issued event p :
  issued (updateDocumentDefaultVersion ssm event) p =
    match UpdateDefaultVersion (ResourceProperties event) with
    | None => []
    | Some flag =>
        if promotes flag p
        then [defaultVersionRequest event (default "" (latestVersion p))]
        else []
    end.
Proof.
  unfold issued. rewrite updateDocumentDefaultVersion_cases.
  destruct (UpdateDefaultVersion _) as [flag|]; simpl; [|by rewrite drop_all].
  destruct (promotes flag p); simpl; [by rewrite drop_app_length|by rewrite drop_all].
Qed.

(** The two handlers at the end of the chain. *)
Lemma finish_appends event data : appends (finish event data) (fun l => l = []).
Proof. by apply appends_resolve. Qed.

Lemma recover_appends event err :
  appends (recover ssm event err) (at_most (createDocumentRequest event)).
Proof.
  unfold recover. case_match.
  - eapply appends_weaken; [|apply Create_appends]. intros l ->. by right.
  - apply appends_reject. by left.
Qed.

Lemma filter_recover (f : SSM.request -> bool) event err p :
  f (createDocumentRequest event) = false ->
  List.filter f (issued (recover ssm event err) p) = [].
Proof.
  intros Hf. eapply filter_at_most; [exact Hf|].
  apply (appends_issued _ _ p (recover_appends event err)).
Qed.

Lemma includes_self_heal_codes (c : option string) :
  JS.includes ["InvalidResourceId"; "InvalidDocument"] c = true <->
  c = Some "InvalidResourceId" \/ c = Some "InvalidDocument".
Proof.
  destruct c as [s|]; simpl.
  - rewrite orb_false_r, orb_true_iff, !String.eqb_eq.
    split; (intros [H|H]; [left|right]; congruence).
  - split; [discriminate|]. by intros [H|H].
Qed.

End Steps.

(** ** The update pipeline as a whole *)

Section Pipeline.

Context (ssm : SSM.client).

Implicit Types (event : Event) (p : Process).

(** The chain of [then], with every step run on the event of the
    invocation. *)
Lemma pipeline_steps event p :
  pipeline ssm event p =
    then_ (updateDocument ssm event) (fun _ => afterUpdateDocument ssm event) p.
Proof.
  unfold pipeline, afterUpdateDocument, then_.
  destruct (updateDocument ssm event p) as [[e1|err] p1] eqn:E1; [|done].
  apply updateDocument_fulfilled in E1 as ->.
  destruct (updateDocumentAddTags ssm event p1) as [[e2|err] p2] eqn:E2; [|done].
  apply updateDocumentAddTags_fulfilled in E2 as ->.
  destruct (updateDocumentRemoveTags ssm event p2) as [[e3|err] p3] eqn:E3; [|done].
  by apply updateDocumentRemoveTags_fulfilled in E3 as ->.
Qed.

(** A rejected pipeline is a rejected step, the steps before it being
    fulfilled. *)
Lemma pipeline_rejected event p p' err :
  pipeline ssm event p = (Rejected err, p') <->
  updateDocument ssm event p = (Rejected err, p')
  \/ (exists p1,
        updateDocument ssm event p = (Fulfilled event, p1)
        /\ (updateDocumentAddTags ssm event p1 = (Rejected err, p')
            \/ exists p2,
                 updateDocumentAddTags ssm event p1 = (Fulfilled event, p2)
                 /\ (updateDocumentRemoveTags ssm event p2 = (Rejected err, p')
                     \/ exists p3,
                          updateDocumentRemoveTags ssm event p2 = (Fulfilled event, p3)
                          /\ updateDocumentDefaultVersion ssm event p3 = (Rejected err, p')))).
Proof.
  rewrite pipeline_steps. unfold afterUpdateDocument, then_. split.
  - destruct (updateDocument ssm event p) as [[e1|e] p1] eqn:E1; [|by left].
    pose proof (updateDocument_fulfilled _ _ _ _ _ E1) as ->.
    intros H. right. exists p1. split; [done|].
    destruct (updateDocumentAddTags ssm event p1) as [[e2|e] p2] eqn:E2; [|by left].
    pose proof (updateDocumentAddTags_fulfilled _ _ _ _ _ E2) as ->.
    right. exists p2. split; [done|].
    destruct (updateDocumentRemoveTags ssm event p2) as [[e3|e] p3] eqn:E3; [|by left].
    pose proof (updateDocumentRemoveTags_fulfilled _ _ _ _ _ E3) as ->.
    right. by exists p3.
  - intros [H|(p1 & H1 & [H|(p2 & H2 & [H|(p3 & H3 & H)])])].
    + by rewrite H.
    + by rewrite H1, H.
    + by rewrite H1, H2, H.
    + by rewrite H1, H2, H3, H.
Qed.

(** [Update] settles step after step. *)
Lemma Update_stepwise event p : Update ssm event p = stepwise ssm event p.
Proof.
  unfold Update, catch. unfold then_ at 1. rewrite pipeline_steps.
  unfold stepwise, after1, after2, after3, after4, settle.
  unfold afterUpdateDocument, then_, finish, recover.
  destruct (updateDocument ssm event p) as [[e1|err] p1]; [|done].
  destruct (updateDocumentAddTags ssm event p1) as [[e2|err] p2]; [|done].
  destruct (updateDocumentRemoveTags ssm event p2) as [[e3|err] p3]; [|done].
  destruct (updateDocumentDefaultVersion ssm event p3) as [[e4|err] p4] eqn:E4; [|done].
  by apply updateDocumentDefaultVersion_fulfilled in E4 as ->.
Qed.

Section Continuations.

Context (P : SSM.request -> Prop) (event : Event).

Hypothesis P_updateDocument : P (updateDocumentRequest event).
Hypothesis P_addTags : P (addTagsRequest event).
Hypothesis P_removeTags : P (removeTagsRequest event).
Hypothesis P_defaultVersion : forall v, P (defaultVersionRequest event v).
Hypothesis P_createDocument : P (createDocumentRequest event).

Lemma recover_Forall err : appends (recover ssm event err) (Forall P).
Proof.
  eapply appends_weaken; [|apply recover_appends].
  intros l. by apply at_most_Forall.
Qed.

Lemma after4_Forall r : appends (after4 ssm event r) (Forall P).
Proof.
  destruct r as [d|err]; [|apply recover_Forall].
  eapply appends_weaken; [|apply finish_appends]. intros l ->. by apply Forall_nil.
Qed.

Lemma after3_Forall r : appends (after3 ssm event r) (Forall P).
Proof.
  destruct r as [d|err]; [|apply recover_Forall].
  apply appends_settle_Forall; [|apply after4_Forall].
  eapply appends_weaken; [|apply updateDocumentDefaultVersion_appends].
  intros l [->|[v ->]]; [by apply Forall_nil|].
  apply Forall_cons. split; [done|by apply Forall_nil].
Qed.

Lemma after2_Forall r : appends (after2 ssm event r) (Forall P).
Proof.
  destruct r as [d|err]; [|apply recover_Forall].
  apply appends_settle_Forall; [|apply after3_Forall].
  eapply appends_weaken; [|apply updateDocumentRemoveTags_appends].
  intros l. by apply at_most_Forall.
Qed.

Lemma after1_Forall r : appends (after1 ssm event r) (Forall P).
Proof.
  destruct r as [d|err]; [|apply recover_Forall].
  apply appends_settle_Forall; [|apply after2_Forall].
  eapply appends_weaken; [|apply updateDocumentAddTags_appends].
  intros l. by apply at_most_Forall.
Qed.

Lemma stepwise_Forall : appends (stepwise ssm event) (Forall P).
Proof.
  apply appends_settle_Forall; [|apply after1_Forall].
  eapply appends_weaken; [|apply updateDocument_appends].
  intros l. by apply at_most_Forall.
Qed.

End Continuations.

(** Every call of an update is one of the five requests built from its
    event. *)
Lemma Update_appends event : appends (Update ssm event) (Forall (requestOf event)).
Proof.
  intros p. rewrite Update_stepwise.
  apply (stepwise_Forall (requestOf event) event); unfold requestOf; eauto 6.
Qed.

(** The calls of [Update], step by step. *)
Lemma Update_issued_stepwise event p :
  issued (Update ssm event) p =
    let s1 := updateDocument ssm event p in
    issued (updateDocument ssm event) p ++
    match fst s1 with
    | Rejected err => issued (recover ssm event err) (snd s1)
    | Fulfilled _ =>
    let s2 := updateDocumentAddTags ssm event (snd s1) in
    issued (updateDocumentAddTags ssm event) (snd s1) ++
    match fst s2 with
    | Rejected err => issued (recover ssm event err) (snd s2)
    | Fulfilled _ =>
    let s3 := updateDocumentRemoveTags ssm event (snd s2) in
    issued (updateDocumentRemoveTags ssm event) (snd s2) ++
    match fst s3 with
    | Rejected err => issued (recover ssm event err) (snd s3)
    | Fulfilled _ =>
    let s4 := updateDocumentDefaultVersion ssm event (snd s3) in
    issued (updateDocumentDefaultVersion ssm event) (snd s3) ++
    ending ssm event (fst s4) (snd s4)
    end
    end
    end.
Proof.
  assert (forall r, appends (after1 ssm event r) (Forall (fun _ => True))) as H1
    by (intros; by apply after1_Forall).
  assert (forall r, appends (after2 ssm event r) (Forall (fun _ => True))) as H2
    by (intros; by apply after2_Forall).
  assert (forall r, appends (after3 ssm event r) (Forall (fun _ => True))) as H3
    by (intros; by apply after3_Forall).
  assert (forall r, appends (after4 ssm event r) (Forall (fun _ => True))) as H4
    by (intros; by apply after4_Forall).
  unfold issued at 1. rewrite Update_stepwise. fold (issued (stepwise ssm event) p).
  unfold stepwise. cbv zeta.
  rewrite (issued_settle _ _ _ _ p (updateDocument_appends ssm event) H1).
  f_equal. destruct (updateDocument ssm event p) as [[d1|err] p1]; simpl; [|done].
  rewrite (issued_settle _ _ _ _ p1 (updateDocumentAddTags_appends ssm event) H2).
  f_equal. destruct (updateDocumentAddTags ssm event p1) as [[d2|err] p2]; simpl; [|done].
  rewrite (issued_settle _ _ _ _ p2 (updateDocumentRemoveTags_appends ssm event) H3).
  f_equal. destruct (updateDocumentRemoveTags ssm event p2) as [[d3|err] p3]; simpl; [|done].
  rewrite (issued_settle _ _ _ _ p3 (updateDocumentDefaultVersion_appends ssm event) H4).
  f_equal. destruct (updateDocumentDefaultVersion ssm event p3) as [[d4|err] p4]; simpl; [|done].
  apply (appends_issued _ _ p4 (finish_appends event event)).
Qed.

(** Steps 2 and 3 leave [latestVersion] alone: step 4 reads what step 1
    left. *)
Lemma beforeStep4_latestVersion event p p3 :
  beforeStep4 ssm event p = Some p3 ->
  latestVersion p3 = latestVersion (snd (updateDocument ssm event p)).
Proof.
  unfold beforeStep4.
  destruct (updateDocument ssm event p) as [[d1|e] p1]; [|done].
  pose proof (updateDocumentAddTags_latestVersion ssm event p1) as E2.
  destruct (updateDocumentAddTags ssm event p1) as [[d2|e] p2]; [|done].
  pose proof (updateDocumentRemoveTags_latestVersion ssm event p2) as E3.
  destruct (updateDocumentRemoveTags ssm event p2) as [[d3|e] p3']; [|done].
  intros [= <-]. simpl in *. congruence.
Qed.

(** The calls of one kind [f] that an update issues, when [f] selects
    neither a tag call nor the create call. *)
Lemma Update_filter (f : SSM.request -> bool) event p :
  f (addTagsRequest event) = false ->
  f (removeTagsRequest event) = false ->
  f (createDocumentRequest event) = false ->
  List.filter f (issued (Update ssm event) p) =
    List.filter f (issued (updateDocument ssm event) p) ++
    match beforeStep4 ssm event p with
    | Some p3 => List.filter f (issued (updateDocumentDefaultVersion ssm event) p3)
    | None => []
    end.
Proof.
  intros Hadd Hrem Hcreate.
  assert (forall err q, List.filter f (issued (recover ssm event err) q) = []) as Hr.
  { intros. by apply filter_recover. }
  rewrite Update_issued_stepwise. cbv zeta. unfold beforeStep4.
  rewrite List.filter_app. f_equal.
  destruct (updateDocument ssm event p) as [[d1|e] p1]; simpl; [|apply Hr].
  rewrite List.filter_app.
  rewrite (filter_at_most f (addTagsRequest event) _ Hadd
             (appends_issued _ _ p1 (updateDocumentAddTags_appends ssm event))).
  destruct (updateDocumentAddTags ssm event p1) as [[d2|e] p2]; simpl; [|apply Hr].
  rewrite List.filter_app.
  rewrite (filter_at_most f (removeTagsRequest event) _ Hrem
             (appends_issued _ _ p2 (updateDocumentRemoveTags_appends ssm event))).
  destruct (updateDocumentRemoveTags ssm event p2) as [[d3|e] p3]; simpl; [|apply Hr].
  rewrite List.filter_app.
  assert (List.filter f (ending ssm event
            (fst (updateDocumentDefaultVersion ssm event p3))
            (snd (updateDocumentDefaultVersion ssm event p3))) = []) as ->.
  { unfold ending. destruct (updateDocumentDefaultVersion ssm event p3) as [[d4|e] p4];
      simpl; [done|apply Hr]. }
  by rewrite app_nil_r.
Qed.

(** The promote calls of an update are those of step 4, when it is
    reached. *)
Lemma Update_promote_calls event p :
  List.filter SSM.is_updateDocumentDefaultVersion (issued (Update ssm event) p) =
    match beforeStep4 ssm event p with
    | Some p3 => issued (updateDocumentDefaultVersion ssm event) p3
    | None => []
    end.
Proof.
  rewrite Update_filter by done.
  rewrite (filter_at_most _ (updateDocumentRequest event) _ eq_refl
             (appends_issued _ _ p (updateDocument_appends ssm event))).
  destruct (beforeStep4 ssm event p) as [p3|]; [|done]. simpl.
  rewrite updateDocumentDefaultVersion_issued.
  destruct (UpdateDefaultVersion _) as [flag|]; [|done].
  by destruct (promotes flag p3).
Qed.

(** The update calls of an update are those of step 1. *)
Lemma Update_update_calls event p :
  List.filter SSM.is_updateDocument (issued (Update ssm event) p) =
    issued (updateDocument ssm event) p.
Proof.
  rewrite Update_filter by done.
  assert (match beforeStep4 ssm event p with
          | Some p3 =>
              List.filter SSM.is_updateDocument
                (issued (updateDocumentDefaultVersion ssm event) p3)
          | None => []
          end = []) as ->.
  { destruct (beforeStep4 ssm event p) as [p3|]; [|done].
    rewrite updateDocumentDefaultVersion_issued.
    destruct (UpdateDefaultVersion _) as [flag|]; [|done].
    by destruct (promotes flag p3). }
  rewrite app_nil_r, updateDocument_issued. by case_decide.
Qed.

(** In a process whose [latestVersion] is not set, an update whose step 1
    records no version issues no promote call. *)
Lemma Update_without_version event p :
  JS.truthy (latestVersion p) = false ->
  latestVersion (snd (updateDocument ssm event p)) = latestVersion p ->
  List.filter SSM.is_updateDocumentDefaultVersion (issued (Update ssm event) p) = [].
Proof.
  intros Hp H1. rewrite Update_promote_calls.
  destruct (beforeStep4 ssm event p) as [p3|] eqn:H3; [|done].
  apply beforeStep4_latestVersion in H3. rewrite H1 in H3.
  rewrite updateDocumentDefaultVersion_issued.
  destruct (UpdateDefaultVersion _) as [flag|]; [|done].
  unfold promotes. by rewrite H3, Hp, andb_false_r.
Qed.

End Pipeline.

(** ** The serialization of a tag list determines the list *)

Section Serialization.

Import JSON.

Implicit Types (s r : string) (c : ascii) (t : Tag) (l : TagList).

Lemma append_nil r : "" +:+ r = r.
Proof. reflexivity. Qed.

Lemma append_cons c s r : String c s +:+ r = String c (s +:+ r).
Proof. reflexivity. Qed.

Lemma append_assoc s1 s2 s3 : (s1 +:+ s2) +:+ s3 = s1 +:+ (s2 +:+ s3).
Proof.
  induction s1 as [|c s1 IH]; [done|].
  by rewrite !append_cons, IH.
Qed.

Lemma append_inv_head s r r' : s +:+ r = s +:+ r' -> r = r'.
Proof.
  induction s as [|c s IH]; [done|].
  rewrite !append_cons. intros [= H]. by apply IH.
Qed.

Ltac flatten :=
  repeat first [rewrite append_assoc | rewrite append_cons | rewrite append_nil].

Lemma unescape_escape_char c r : unescape_char (escape_char c +:+ r) = Some (c, r).
Proof. destruct c as [[] [] [] [] [] [] [] []]; reflexivity. Qed.

Lemma escape_char_no_dquote c r r' : escape_char c +:+ r <> String dquote r'.
Proof.
  intros H. pose proof (unescape_escape_char c r) as E.
  rewrite H in E. injection E as <- <-. discriminate H.
Qed.

Lemma escape_inj s s' r r' :
  escape s +:+ String dquote r = escape s' +:+ String dquote r' -> s = s' /\ r = r'.
Proof.
  revert s'. induction s as [|c s IH]; intros [|c' s']; cbn [escape].
  - rewrite !append_nil. by intros [= ->].
  - rewrite append_nil, append_assoc. intros H. symmetry in H.
    by apply escape_char_no_dquote in H.
  - rewrite append_nil, append_assoc. intros H. by apply escape_char_no_dquote in H.
  - rewrite !append_assoc. intros H.
    pose proof (unescape_escape_char c (escape s +:+ String dquote r)) as E.
    rewrite H, unescape_escape_char in E. injection E as <- E.
    symmetry in E. apply IH in E as [-> ->]. done.
Qed.

Lemma quote_append s r : quote s +:+ r = String dquote (escape s +:+ String dquote r).
Proof. unfold quote. by flatten. Qed.

Lemma quote_inj s s' r r' : quote s +:+ r = quote s' +:+ r' -> s = s' /\ r = r'.
Proof. rewrite !quote_append. intros [= H]. by apply escape_inj. Qed.

Lemma write_tag_inj t t' r r' : write_tag t r = write_tag t' r' -> t = t' /\ r = r'.
Proof.
  destruct t as [k v], t' as [k' v']. unfold write_tag. cbn [Key Value].
  intros H%append_inv_head%quote_inj. destruct H as [-> H].
  destruct v as [v|], v' as [v'|].
  - apply append_inv_head, quote_inj in H as [-> H].
    by apply append_inv_head in H as ->.
  - discriminate H.
  - discriminate H.
  - by apply append_inv_head in H as ->.
Qed.

Lemma write_more_inj l l' r r' c c' :
  c <> ","%char -> c' <> ","%char ->
  write_more l (String c r) = write_more l' (String c' r') ->
  l = l' /\ String c r = String c' r'.
Proof.
  intros Hc Hc'. revert l'. induction l as [|t l IH]; intros [|t' l']; cbn [write_more].
  - done.
  - rewrite append_cons. intros [= -> _]. done.
  - rewrite append_cons. intros [= <- _]. done.
  - intros H%append_inv_head. apply write_tag_inj in H as [-> H].
    apply IH in H as [-> H]. done.
Qed.

Lemma stringify_of_tag t r : stringify (of_tag t) +:+ r = write_tag t r.
Proof.
  destruct t as [k [v|]]; unfold of_tag, write_tag; cbn [Key Value stringify map join fst snd];
    by flatten.
Qed.

Lemma join_of_tags t l r :
  join "," (map stringify (map of_tag (t :: l))) +:+ r = write_tag t (write_more l r).
Proof.
  revert t. induction l as [|t' l IH]; intros t.
  - apply stringify_of_tag.
  - change (join "," (map stringify (map of_tag (t :: t' :: l))))
      with (stringify (of_tag t) +:+ "," +:+ join "," (map stringify (map of_tag (t' :: l)))).
    rewrite append_assoc, stringify_of_tag. cbn [write_more].
    f_equal. rewrite <- IH. by rewrite append_assoc.
Qed.

Lemma stringify_of_tags l :
  stringify (of_tags l) =
    match l with
    | [] => "[]"
    | t :: l' => "[" +:+ write_tag t (write_more l' "]")
    end.
Proof.
  destruct l as [|t l]; [done|].
  change (stringify (of_tags (t :: l)))
    with ("[" +:+ join "," (map stringify (map of_tag (t :: l))) +:+ "]").
  by rewrite join_of_tags.
Qed.

(** Two tag lists with the same serialization are the same list. *)
Lemma stringify_of_tags_inj l l' :
  stringify (of_tags l) = stringify (of_tags l') -> l = l'.
Proof.
  rewrite !stringify_of_tags. destruct l as [|t l], l' as [|t' l'].
  - done.
  - discriminate.
  - discriminate.
  - intros H%append_inv_head. apply write_tag_inj in H as [-> H].
    apply write_more_inj in H as [-> _]; done.
Qed.

End Serialization.

(** * The claims *)

(** ** The version recorded by step 1 *)

(** C1 fails on the code: [latestVersion] is a variable of the module and
    no invocation resets it. After an update that recorded version ["2"],
    a second update in the same process whose step 1 issues no call and
    records nothing still finds [latestVersion] set, and its step 4 issues
    a promote call for the version of the earlier invocation. *)
Theorem latestVersion_survives_invocation :
  let ssm := Scenario.accepting "2" in
  let p1 := snd (Update ssm Scenario.contentChange initial) in
  latestVersion initial = None
  /\ latestVersion p1 = Some "2"
  /\ contentUnchanged Scenario.noChange
  /\ issued (updateDocument ssm Scenario.noChange) p1 = []
  /\ latestVersion (snd (updateDocument ssm Scenario.noChange p1)) = Some "2"
  /\ issued (Update ssm Scenario.noChange) p1 =
       [SSM.updateDocumentDefaultVersion "doc1" "2"].
Proof. repeat split; by vm_compute. Qed.

(** ** Update: the fallback to [Create] and the benign duplicate *)

(** C2. When the pipeline of [Update] is rejected with an error whose
    code is [InvalidResourceId] or [InvalidDocument], [Update] does not
    reject with that error: it runs [Create] on the same event, which
    issues one create call built from the current properties, and settles
    as [Create] does, fulfilled with an event that carries the name when
    the create call succeeds. With any other error, [Update] is rejected
    with that same error. *)
Theorem Update_recreates_missing_document
    (ssm : SSM.client) (event : Event) (p p' : Process) (err : Error) :
  pipeline ssm event p = (Rejected err, p') ->
  (code err = Some "InvalidResourceId" \/ code err = Some "InvalidDocument" ->
     Update ssm event p = Create ssm event p'
     /\ issued (Create ssm event) p' =
          [SSM.createDocument
             (Name (ResourceProperties event))
             (JSON.stringify (Content (ResourceProperties event)))
             (DocumentType (ResourceProperties event))
             (JS.or_else (TargetType (ResourceProperties event)) "/")
             (makeTags event (ResourceProperties event))]
     /\ Create ssm event p' =
          (match ssm (calls p') (createDocumentRequest event) with
           | SSM.failure err' => Rejected err'
           | SSM.success _ =>
               Fulfilled (addResponseValue "Name" (Name (ResourceProperties event)) event)
           end,
           logged p' (createDocumentRequest event))
     /\ ResponseValues (addResponseValue "Name" (Name (ResourceProperties event)) event)
          !! "Name" = Some (Name (ResourceProperties event)))
  /\ (code err <> Some "InvalidResourceId" -> code err <> Some "InvalidDocument" ->
        Update ssm event p = (Rejected err, p')).
Proof.
  intros Hpipe.
  assert (Update ssm event p = recover ssm event err p') as E.
  { unfold Update, catch, then_. by rewrite Hpipe. }
  split.
  - intros Hcode%includes_self_heal_codes.
    split; [by rewrite E; unfold recover; rewrite Hcode|].
    split; [|split].
    + unfold issued, Create, send.
      destruct (ssm _ _) as [e|d]; simpl; by rewrite drop_app_length.
    + unfold Create, send, createDocumentRequest, logged.
      by destruct (ssm _ _) as [e|d].
    + simpl. apply lookup_insert_eq.
  - intros H1 H2. rewrite E. unfold recover.
    destruct (JS.includes _ _) eqn:Hc; [|done].
    apply includes_self_heal_codes in Hc as [Hc|Hc]; done.
Qed.

Lemma Update_recreates_missing_document_witness :
  let ssm := Scenario.refusing SSM.is_updateDocument "InvalidResourceId" in
  Update ssm Scenario.contentChange initial =
    Create ssm Scenario.contentChange
      (logged initial (updateDocumentRequest Scenario.contentChange))
  /\ issued (Update ssm Scenario.contentChange) initial =
       [updateDocumentRequest Scenario.contentChange;
        createDocumentRequest Scenario.contentChange].
Proof.
  intros ssm. split; [|by vm_compute].
  apply (Update_recreates_missing_document ssm Scenario.contentChange initial
           (logged initial (updateDocumentRequest Scenario.contentChange))
           (Scenario.awsError "InvalidResourceId")).
  - by vm_compute.
  - by left.
Defined.

(** C3. When step 1 issues its update call and the remote service fails
    it with code [DuplicateDocumentContent], the step is fulfilled with the
    event, [latestVersion] is left as it was, and the pipeline goes on with
    the tag-addition step, then the tag-removal step, then step 4. With any
    other error the step, and with it the pipeline, is rejected with that
    error. *)
Theorem updateDocument_duplicate_is_benign
    (ssm : SSM.client) (event : Event) (p : Process) (err : Error) :
  ~ contentUnchanged event ->
  ssm (calls p) (updateDocumentRequest event) = SSM.failure err ->
  (code err = Some "DuplicateDocumentContent" ->
     updateDocument ssm event p = (Fulfilled event, logged p (updateDocumentRequest event))
     /\ latestVersion (snd (updateDocument ssm event p)) = latestVersion p
     /\ pipeline ssm event p =
          then_ (updateDocumentAddTags ssm event) (fun _ =>
          then_ (updateDocumentRemoveTags ssm event) (fun _ =>
          updateDocumentDefaultVersion ssm event))
            (logged p (updateDocumentRequest event)))
  /\ (code err <> Some "DuplicateDocumentContent" ->
        updateDocument ssm event p = (Rejected err, logged p (updateDocumentRequest event))
        /\ pipeline ssm event p = (Rejected err, logged p (updateDocumentRequest event))).
Proof.
  intros Hchanged Hreply.
  pose proof (updateDocument_changed ssm event p Hchanged) as E.
  rewrite Hreply in E. split; intros Hcode.
  - rewrite bool_decide_eq_true_2 in E by done.
    rewrite pipeline_steps. unfold then_ at 1. rewrite E. done.
  - rewrite bool_decide_eq_false_2 in E by done.
    rewrite pipeline_steps. unfold then_ at 1. rewrite E. done.
Qed.

Lemma updateDocument_duplicate_is_benign_witness :
  let ssm := Scenario.refusing SSM.is_updateDocument "DuplicateDocumentContent" in
  updateDocument ssm Scenario.contentChange initial =
    (Fulfilled Scenario.contentChange,
     logged initial (updateDocumentRequest Scenario.contentChange))
  /\ issued (pipeline ssm Scenario.contentChange) initial =
       [updateDocumentRequest Scenario.contentChange].
Proof.
  intros ssm. split; [|by vm_compute].
  apply (updateDocument_duplicate_is_benign ssm Scenario.contentChange initial
           (Scenario.awsError "DuplicateDocumentContent")).
  - intros [H _]. vm_compute in H. discriminate H.
  - reflexivity.
  - reflexivity.
Defined.

(** ** Update: steps 1, 4 and 2 *)

(** C4. The claim fails on the code for the target type of the desired
    state. That target type is the property [TargetType], which [Create]
    sends (line 47); step 1 compares and sends the differently spelled
    [targetType] (lines 92-93 and 104). In the update below the content is
    unchanged and the target type changes from the default ["/"] to
    ["/AWS::EC2::Instance"]: step 1 issues no call, the whole update issues
    no update call (and, in a fresh process, no call at all), whatever the
    remote service would answer, while the create request for the same
    desired state carries the new target type. *)
Theorem Update_misses_TargetType_change (ssm : SSM.client) (p : Process) :
  let event := Scenario.targetTypeChange in
  Content (ResourceProperties event) = Content (OldResourceProperties event)
  /\ JS.or_else (TargetType (OldResourceProperties event)) defaultTargetType = "/"
  /\ JS.or_else (TargetType (ResourceProperties event)) defaultTargetType
       = "/AWS::EC2::Instance"
  /\ issued (updateDocument ssm event) p = []
  /\ List.filter SSM.is_updateDocument (issued (Update ssm event) p) = []
  /\ issued (Update ssm event) initial = []
  /\ createDocumentRequest event =
       SSM.createDocument "doc1" (JSON.stringify (Scenario.document "1.0"))
         (Some "Automation") "/AWS::EC2::Instance"
         (makeTags event (ResourceProperties event)).
Proof.
  intros event.
  assert (issued (updateDocument ssm event) p = []) as Hstep1.
  { rewrite updateDocument_issued. rewrite decide_True; [done|]. by split. }
  split; [done|]. split; [done|]. split; [done|]. split; [done|].
  split; [by rewrite Update_update_calls|]. split; reflexivity.
Qed.

(** C5, as the code has it. With the flag present, step 4 is a no-op
    (fulfilled with the event, no call, the state untouched) for every flag
    value that is not ["true"] up to case, and the whole update then issues
    no promote call; it is a no-op as well when no version identifier is
    held in [latestVersion]. When the flag is ["true"] up to case, a content
    change yielded the identifier [v] in this invocation and step 4 is
    reached, step 4 issues exactly one promote call, for [v], and it is the
    only promote call of the update. *)
Theorem updateDocumentDefaultVersion_promotes
    (ssm : SSM.client) (event : Event) (p : Process) (flag : string) :
  UpdateDefaultVersion (ResourceProperties event) = Some flag ->
  (JS.toLowerCase flag <> "true" ->
     updateDocumentDefaultVersion ssm event p = (Fulfilled event, p)
     /\ List.filter SSM.is_updateDocumentDefaultVersion (issued (Update ssm event) p) = [])
  /\ (JS.truthy (latestVersion p) = false ->
        updateDocumentDefaultVersion ssm event p = (Fulfilled event, p))
  /\ (forall data v p3,
        JS.toLowerCase flag = "true" ->
        ~ contentUnchanged event ->
        ssm (calls p) (updateDocumentRequest event) = SSM.success data ->
        SSM.LatestVersion data = Some v -> v <> "" ->
        beforeStep4 ssm event p = Some p3 ->
        issued (updateDocumentDefaultVersion ssm event) p3 =
          [SSM.updateDocumentDefaultVersion (Name (ResourceProperties event)) v]
        /\ List.filter SSM.is_updateDocumentDefaultVersion (issued (Update ssm event) p) =
             [SSM.updateDocumentDefaultVersion (Name (ResourceProperties event)) v]).
Proof.
  intros Hflag. split; [|split].
  - intros Hne. apply String.eqb_neq in Hne. split.
    + rewrite updateDocumentDefaultVersion_cases, Hflag. unfold promotes. by rewrite Hne.
    + rewrite Update_promote_calls.
      destruct (beforeStep4 ssm event p) as [p3|]; [|done].
      rewrite updateDocumentDefaultVersion_issued, Hflag. unfold promotes. by rewrite Hne.
  - intros H. rewrite updateDocumentDefaultVersion_cases, Hflag.
    unfold promotes. by rewrite H, andb_false_r.
  - intros data v p3 Htrue Hchanged Hreply Hv Hne H3.
    rewrite Update_promote_calls, H3, updateDocumentDefaultVersion_issued, Hflag.
    apply beforeStep4_latestVersion in H3.
    rewrite updateDocument_changed, Hreply in H3 by done. simpl in H3.
    unfold promotes. rewrite H3, Hv, Htrue. simpl.
    destruct v; [done|by split].
Qed.

Lemma updateDocumentDefaultVersion_promotes_witness :
  List.filter SSM.is_updateDocumentDefaultVersion
    (issued (Update (Scenario.accepting "2") Scenario.contentChange) initial) =
  [SSM.updateDocumentDefaultVersion "doc1" "2"].
Proof.
  eapply (updateDocumentDefaultVersion_promotes
            (Scenario.accepting "2") Scenario.contentChange initial "true").
  - reflexivity.
  - reflexivity.
  - intros [H _]. vm_compute in H. discriminate H.
  - reflexivity.
  - reflexivity.
  - discriminate.
  - by vm_compute.
Defined.

(** The claim C5 also covers an absent flag, for which step 4 is no
    no-op: reading [toLowerCase] of [undefined] throws in the executor, the
    step is rejected with the [TypeError], and so is [Update]. *)
Lemma updateDocumentDefaultVersion_flag_absent :
  UpdateDefaultVersion (ResourceProperties Scenario.flagAbsent) = None
  /\ outcome (updateDocumentDefaultVersion (Scenario.accepting "2") Scenario.flagAbsent)
       initial
     = Rejected (TypeError "Cannot read properties of undefined (reading 'toLowerCase')")
  /\ outcome (updateDocumentDefaultVersion (Scenario.accepting "2") Scenario.flagAbsent)
       initial
     <> Fulfilled Scenario.flagAbsent
  /\ outcome (Update (Scenario.accepting "2") Scenario.flagAbsent) initial
     = Rejected (TypeError "Cannot read properties of undefined (reading 'toLowerCase')").
Proof. repeat split; try reflexivity. discriminate. Qed.

(** C6, as the code has it. The tag-addition step compares the
    serializations of the two computed tag lists, which are equal exactly
    when the lists are equal entry by entry, in the same order. In that
    case the step is a no-op: fulfilled with the event, no call, the state
    untouched. Otherwise it issues one [addTagsToResource] call that
    carries the whole new tag list, and settles as that call does. *)
Theorem updateDocumentAddTags_noop_iff_same_list
    (ssm : SSM.client) (event : Event) (p : Process) :
  let oldTags := makeTags event (OldResourceProperties event) in
  let newTags := makeTags event (ResourceProperties event) in
  let req := SSM.addTagsToResource "Document" (Name (ResourceProperties event)) newTags in
  (JSON.stringify (JSON.of_tags oldTags) = JSON.stringify (JSON.of_tags newTags) <->
     oldTags = newTags)
  /\ (issued (updateDocumentAddTags ssm event) p = [] <-> oldTags = newTags)
  /\ issued (updateDocumentAddTags ssm event) p =
       (if decide (oldTags = newTags) then [] else [req])
  /\ updateDocumentAddTags ssm event p =
       (if decide (oldTags = newTags) then (Fulfilled event, p)
        else (match ssm (calls p) req with
              | SSM.failure err => Rejected err
              | SSM.success _ => Fulfilled event
              end, logged p req)).
Proof.
  intros oldTags newTags req.
  assert (JSON.stringify (JSON.of_tags oldTags) = JSON.stringify (JSON.of_tags newTags)
          <-> oldTags = newTags) as Hinj.
  { split; [apply stringify_of_tags_inj|by intros ->]. }
  assert (updateDocumentAddTags ssm event p =
       (if decide (oldTags = newTags) then (Fulfilled event, p)
        else (match ssm (calls p) req with
              | SSM.failure err => Rejected err
              | SSM.success _ => Fulfilled event
              end, logged p req))) as Hstep.
  { unfold updateDocumentAddTags. cbv zeta. fold oldTags newTags.
    destruct (decide (oldTags = newTags)) as [E|E].
    - apply Hinj, String.eqb_eq in E. by rewrite E.
    - rewrite <- Hinj, <- String.eqb_eq in E. apply not_true_is_false in E.
      rewrite E. unfold send, logged. fold req. by destruct (ssm _ _). }
  assert (issued (updateDocumentAddTags ssm event) p =
            (if decide (oldTags = newTags) then [] else [req])) as Hissued.
  { unfold issued. rewrite Hstep. destruct (decide _); simpl;
      [by rewrite drop_all|by rewrite drop_app_length]. }
  split; [done|]. split; [|done].
  rewrite Hissued. destruct (decide _); [done|]. split; [discriminate|done].
Qed.

(** The claim C6 takes the comparison to be one of sets. It is one of
    sequences: with the same user tags listed in another order the two tag
    lists have the same entries, and the step still issues its call. *)
Lemma updateDocumentAddTags_order_matters :
  let event := Scenario.tagsReordered in
  let oldTags := makeTags event (OldResourceProperties event) in
  let newTags := makeTags event (ResourceProperties event) in
  (forall t, In t oldTags <-> In t newTags)
  /\ oldTags ≡ₚ newTags
  /\ issued (updateDocumentAddTags (Scenario.accepting "2") event) initial =
       [SSM.addTagsToResource "Document" "doc1" newTags].
Proof.
  split; [|split].
  - intros t. vm_compute. tauto.
  - vm_compute. apply perm_skip, perm_skip, perm_skip, perm_swap.
  - by vm_compute.
Qed.

(** ** The tag differ *)

(** C7. [getMissingTags] returns exactly the keys of the entries of
    [oldTags] whose key does not occur in [newTags], in the order of
    [oldTags]: it equals the specification's [missingKeys], its members are
    the old keys that are no new key, it is a subsequence of the old keys,
    and it depends on the keys alone, so that changing only values leaves
    no key missing. In particular [A,B,C] against [B,D] gives [A,C], and
    [A] against [A] gives nothing. *)
Theorem getMissingTags_missingKeys :
  (forall oldTags newTags,
     getMissingTags oldTags newTags = missingKeys oldTags newTags)
  /\ (forall oldTags newTags k,
        In k (getMissingTags oldTags newTags) <->
        In k (map Key oldTags) /\ ~ In k (map Key newTags))
  /\ (forall oldTags newTags,
        sublist (getMissingTags oldTags newTags) (map Key oldTags))
  /\ (forall oldTags newTags,
        getMissingTags oldTags newTags =
        getMissingTags (map forgetValue oldTags) (map forgetValue newTags))
  /\ (forall oldTags (f : Tag -> option string),
        getMissingTags oldTags (map (fun t => {| Key := Key t; Value := f t |}) oldTags) = [])
  /\ (forall a b c b' d,
        getMissingTags [mkTag "A" a; mkTag "B" b; mkTag "C" c] [mkTag "B" b'; mkTag "D" d]
        = ["A"; "C"])
  /\ (forall a a', getMissingTags [mkTag "A" a] [mkTag "A" a'] = []).
Proof.
  split; [apply getMissingTags_eq_missingKeys|].
  split; [intros; rewrite getMissingTags_eq_missingKeys; apply In_missingKeys|].
  split; [intros; rewrite getMissingTags_eq_missingKeys; apply missingKeys_sublist|].
  split.
  { intros. rewrite !getMissingTags_eq_missingKeys.
    apply missingKeys_keys_only; rewrite map_map; by apply map_ext. }
  split; [|by split].
  intros oldTags f.
  destruct (getMissingTags oldTags _) as [|k l] eqn:E; [done|exfalso].
  assert (In k (k :: l)) as Hk by (by left). rewrite <- E in Hk.
  rewrite getMissingTags_eq_missingKeys in Hk.
  apply In_missingKeys in Hk as [Hold Hnew]. apply Hnew.
  rewrite map_map. simpl. done.
Qed.

(** C8. The list computed by [makeTags] is the three system tags (stack
    id from the event, stack name from the property set, logical id from
    the event) followed by the entries of the property set's user tag
    mapping, in their order; without a user tag mapping it is exactly the
    three system tags. *)
Theorem makeTags_system_then_user (event : Event) (properties : Properties) :
  wf_properties properties ->
  makeTags event properties =
    [ {| Key := "aws-cloudformation:stack-id"; Value := Some (StackId event) |};
      {| Key := "aws-cloudformation:stack-name"; Value := StackName properties |};
      {| Key := "aws-cloudformation:logical-id"; Value := Some (LogicalResourceId event) |} ]
    ++ match Tags properties with
       | Some o => userTags o
       | None => []
       end.
Proof.
  intros Hwf. rewrite makeTags_unfold. unfold systemTags. f_equal.
  unfold wf_properties in Hwf. destruct (Tags properties) as [o|]; [|done].
  unfold JS.keys, userTags. rewrite map_map. apply map_ext_in.
  intros kv Hkv. by rewrite (get_entry o kv Hwf Hkv).
Qed.

Lemma makeTags_system_then_user_witness :
  makeTags Scenario.tagsReordered (ResourceProperties Scenario.tagsReordered) =
    [ mkTag "aws-cloudformation:stack-id"
        (Some "arn:aws:cloudformation:eu-west-1:123456789012:stack/demo/1");
      mkTag "aws-cloudformation:stack-name" (Some "demo");
      mkTag "aws-cloudformation:logical-id" (Some "Document");
      mkTag "b" (Some "2"); mkTag "a" (Some "1") ].
Proof.
  apply (makeTags_system_then_user Scenario.tagsReordered
           (ResourceProperties Scenario.tagsReordered)).
  unfold wf_properties, JS.wf_object. simpl.
  apply NoDup_cons. split; [by intros [H|H]%elem_of_cons; [|inversion H]|].
  apply NoDup_cons. split; [by intros H%elem_of_nil|]. apply NoDup_nil_2.
Defined.

(** ** Delete *)

(** C9. [Delete] issues exactly one remote call, the deletion of the
    document by name, and settles as that call does: fulfilled with the
    event on success, rejected with the very error of the remote service on
    failure, whatever its code. No error is classified as benign. *)
Theorem Delete_propagates_every_error (ssm : SSM.client) (event : Event) (p : Process) :
  issued (Delete ssm event) p = [SSM.deleteDocument (Name (ResourceProperties event))]
  /\ Delete ssm event p =
       (match ssm (calls p) (SSM.deleteDocument (Name (ResourceProperties event))) with
        | SSM.failure err => Rejected err
        | SSM.success _ => Fulfilled event
        end,
        logged p (SSM.deleteDocument (Name (ResourceProperties event)))).
Proof.
  unfold issued, Delete, send, logged.
  destruct (ssm _ _) as [err|data]; simpl; by rewrite drop_app_length.
Qed.

(** ** System tags are never removed *)

(** C10. Whatever the event and the two property sets, the key list
    that the tag-removal step computes from the two [makeTags] outputs
    contains none of the three system tag keys, and no remove-tags call of
    an update names one of them. *)
Theorem getMissingTags_keeps_system_tags
    (ssm : SSM.client) (event : Event) (oldProperties newProperties : Properties)
    (p : Process) :
  Forall
    (fun k => ~ In k (getMissingTags (makeTags event oldProperties)
                                     (makeTags event newProperties)))
    [ "aws-cloudformation:stack-id";
      "aws-cloudformation:stack-name";
      "aws-cloudformation:logical-id" ]
  /\ Forall keepsSystemTags (issued (updateDocumentRemoveTags ssm event) p)
  /\ Forall keepsSystemTags (issued (Update ssm event) p).
Proof.
  assert (forall old new,
    Forall (fun k => ~ In k (getMissingTags (makeTags event old) (makeTags event new)))
      systemTagKeys) as Hkeys.
  { intros old new. apply Forall_forall. intros k Hk%list_elem_of_In Hin.
    rewrite getMissingTags_eq_missingKeys in Hin.
    apply In_missingKeys in Hin as [_ Hnew]. apply Hnew.
    by apply systemTagKeys_in_makeTags. }
  split; [apply Hkeys|]. split.
  - pose proof (appends_issued _ _ p (updateDocumentRemoveTags_appends ssm event)) as H.
    revert H. apply at_most_Forall. simpl. apply Hkeys.
  - pose proof (appends_issued _ _ p (Update_appends ssm event)) as H.
    eapply Forall_impl; [exact H|]. simpl.
    intros r [->|[->|[->|[[v ->]| ->]]]]; simpl; first [exact I|apply Hkeys].
Qed.

(** * Further properties of the handlers *)

(** ** Lemmas on the steps *)

Section MoreSteps.

Context (ssm : SSM.client).

Implicit Types (event : Event) (p : Process).

Lemma updateDocumentAddTags_issued event p :
  issued (updateDocumentAddTags ssm event) p =
    if String.eqb (JSON.stringify (JSON.of_tags (makeTags event (OldResourceProperties event))))
                  (JSON.stringify (JSON.of_tags (makeTags event (ResourceProperties event))))
    then [] else [addTagsRequest event].
Proof.
  unfold issued, updateDocumentAddTags, send. cbv zeta.
  destruct (String.eqb _ _); simpl; [by rewrite drop_all|].
  destruct (ssm _ _); simpl; by rewrite drop_app_length.
Qed.

Lemma updateDocumentRemoveTags_issued event p :
  issued (updateDocumentRemoveTags ssm event) p =
    if String.eqb (JSON.stringify (JSON.of_tags (makeTags event (OldResourceProperties event))))
                  (JSON.stringify (JSON.of_tags (makeTags event (ResourceProperties event))))
       || (length (getMissingTags (makeTags event (OldResourceProperties event))
                                  (makeTags event (ResourceProperties event))) =? 0)
    then [] else [removeTagsRequest event].
Proof.
  unfold issued, updateDocumentRemoveTags, send. cbv zeta.
  destruct (_ || _); simpl; [by rewrite drop_all|].
  destruct (ssm _ _); simpl; by rewrite drop_app_length.
Qed.

Lemma keeps_settle {A B} (m : Promise A) (k : Settled A -> Promise B) :
  keeps_latestVersion m -> (forall r, keeps_latestVersion (k r)) ->
  keeps_latestVersion (settle m k).
Proof.
  intros Hm Hk p. unfold settle. specialize (Hm p).
  destruct (m p) as [r p1]. simpl in Hm. by rewrite Hk.
Qed.

Lemma updateDocumentDefaultVersion_keeps event :
  keeps_latestVersion (updateDocumentDefaultVersion ssm event).
Proof.
  intros p. rewrite updateDocumentDefaultVersion_cases.
  destruct (UpdateDefaultVersion _) as [flag|]; [|done].
  by destruct (promotes flag p).
Qed.

Lemma Create_keeps event : keeps_latestVersion (Create ssm event).
Proof. intros p. unfold Create, send. by destruct (ssm _ _). Qed.

Lemma recover_keeps event err : keeps_latestVersion (recover ssm event err).
Proof. unfold recover. destruct (JS.includes _ _); [apply Create_keeps|done]. Qed.

Lemma after1_keeps event r : keeps_latestVersion (after1 ssm event r).
Proof.
  assert (forall r, keeps_latestVersion (after4 ssm event r)) as H4.
  { intros [d|err]; [done|apply recover_keeps]. }
  assert (forall r, keeps_latestVersion (after3 ssm event r)) as H3.
  { intros [d|err]; [|apply recover_keeps].
    apply keeps_settle; [apply updateDocumentDefaultVersion_keeps|done]. }
  assert (forall r, keeps_latestVersion (after2 ssm event r)) as H2.
  { intros [d|err]; [|apply recover_keeps].
    apply keeps_settle; [|done]. intros p. apply updateDocumentRemoveTags_latestVersion. }
  destruct r as [d|err]; [|apply recover_keeps].
  apply keeps_settle; [|done]. intros p. apply updateDocumentAddTags_latestVersion.
Qed.

Lemma at_most_sublist (req : SSM.request) l : at_most req l -> sublist l [req].
Proof. intros [->| ->]; [apply sublist_nil_l|done]. Qed.

Lemma sublist_step (l rest tail : list SSM.request) (req : SSM.request) :
  sublist l [req] -> sublist rest tail -> sublist (l ++ rest) (req :: tail).
Proof. intros H1 H2. by apply (sublist_app l [req] rest tail). Qed.

Lemma recover_sublist event err p (before : list SSM.request) :
  sublist (issued (recover ssm event err) p) (before ++ [createDocumentRequest event]).
Proof.
  apply sublist_inserts_l, at_most_sublist.
  apply (appends_issued _ _ p (recover_appends ssm event err)).
Qed.

End MoreSteps.

(** ** The calls of an update *)

(** X1. Step 1 neither compares nor sends the key [TargetType] that
    [Create] sends: whatever values the two property sets carry under that
    key, step 1 issues the same calls and leaves the same [latestVersion],
    while the create request follows the key. *)
Theorem updateDocument_reads_targetType
    (ssm : SSM.client) (event : Event) (p : Process) (new old : option string) :
  issued (updateDocument ssm (withTargetType new old event)) p =
    issued (updateDocument ssm event) p
  /\ latestVersion (snd (updateDocument ssm (withTargetType new old event) p)) =
       latestVersion (snd (updateDocument ssm event p))
  /\ createDocumentRequest (withTargetType new old event) =
       SSM.createDocument
         (Name (ResourceProperties event))
         (JSON.stringify (Content (ResourceProperties event)))
         (DocumentType (ResourceProperties event))
         (JS.or_else new "/")
         (makeTags event (ResourceProperties event)).
Proof.
  split; [|split].
  - by rewrite !updateDocument_issued.
  - destruct (decide (contentUnchanged event)) as [H|H].
    + rewrite (updateDocument_unchanged ssm event p H).
      by rewrite (updateDocument_unchanged ssm (withTargetType new old event) p H).
    + rewrite (updateDocument_changed ssm event p H).
      rewrite (updateDocument_changed ssm (withTargetType new old event) p H).
      change (updateDocumentRequest (withTargetType new old event))
        with (updateDocumentRequest event).
      destruct (ssm _ _) as [err|data]; [by destruct (bool_decide _)|done].
  - reflexivity.
Qed.

(** X2. [Create] issues exactly one call, [createDocument] with the
    name, the serialized content, the document type, the target type
    [TargetType] or ["/"], and the system and user tags; it is fulfilled
    with the event carrying the name when the call succeeds and rejected
    with the error of the call otherwise. *)
Theorem Create_one_call (ssm : SSM.client) (event : Event) (p : Process) :
  let req :=
    SSM.createDocument
      (Name (ResourceProperties event))
      (JSON.stringify (Content (ResourceProperties event)))
      (DocumentType (ResourceProperties event))
      (JS.or_else (TargetType (ResourceProperties event)) "/")
      (makeTags event (ResourceProperties event)) in
  issued (Create ssm event) p = [req]
  /\ Create ssm event p =
       (match ssm (calls p) req with
        | SSM.failure err => Rejected err
        | SSM.success _ =>
            Fulfilled (addResponseValue "Name" (Name (ResourceProperties event)) event)
        end, logged p req)
  /\ ResponseValues (addResponseValue "Name" (Name (ResourceProperties event)) event)
       !! "Name" = Some (Name (ResourceProperties event)).
Proof.
  intros req. split; [|split].
  - apply (appends_issued _ _ p (Create_appends ssm event)).
  - unfold Create, send, logged. fold req. by destruct (ssm _ _).
  - simpl. apply lookup_insert_eq.
Qed.

(** X3. The tag-removal step is a no-op when the two computed tag lists
    are equal or no key is missing; otherwise it issues one
    [removeTagsFromResource] call that names exactly the missing keys, and
    settles as that call does. *)
Theorem updateDocumentRemoveTags_missing_keys
    (ssm : SSM.client) (event : Event) (p : Process) :
  let oldTags := makeTags event (OldResourceProperties event) in
  let newTags := makeTags event (ResourceProperties event) in
  let req :=
    SSM.removeTagsFromResource (Name (ResourceProperties event)) "Document"
      (getMissingTags oldTags newTags) in
  updateDocumentRemoveTags ssm event p =
    (if decide (oldTags = newTags \/ getMissingTags oldTags newTags = [])
     then (Fulfilled event, p)
     else (match ssm (calls p) req with
           | SSM.failure err => Rejected err
           | SSM.success _ => Fulfilled event
           end, logged p req)).
Proof.
  intros oldTags newTags req.
  unfold updateDocumentRemoveTags. cbv zeta. fold oldTags newTags. fold req.
  destruct (decide _) as [[H|H]|H].
  - by rewrite H, String.eqb_refl.
  - by rewrite H, orb_true_r.
  - assert (String.eqb (JSON.stringify (JSON.of_tags oldTags))
              (JSON.stringify (JSON.of_tags newTags)) = false) as ->.
    { apply String.eqb_neq. intros E%stringify_of_tags_inj. apply H. by left. }
    assert ((length (getMissingTags oldTags newTags) =? 0) = false) as ->.
    { destruct (getMissingTags oldTags newTags); [|done]. exfalso. apply H. by right. }
    unfold send, logged. simpl. by destruct (ssm _ _).
Qed.

(** X4. Whatever the remote service answers, an update issues its calls
    in one fixed order, each at most once: the content update, the tag
    addition, the tag removal, the promotion of one version, the
    re-creation. It issues no other call, and so never a deletion. *)
Theorem Update_call_order (ssm : SSM.client) (event : Event) (p : Process) :
  exists version,
    sublist (issued (Update ssm event) p)
      [ updateDocumentRequest event;
        addTagsRequest event;
        removeTagsRequest event;
        SSM.updateDocumentDefaultVersion (Name (ResourceProperties event)) version;
        createDocumentRequest event ].
Proof.
  rewrite Update_issued_stepwise. cbv zeta.
  pose proof (at_most_sublist _ _ (appends_issued _ _ p (updateDocument_appends ssm event)))
    as H1.
  destruct (updateDocument ssm event p) as [[d1|e] p1]; simpl.
  2: { exists "". apply sublist_step; [done|].
       apply (recover_sublist ssm event e p1 [_; _; _]). }
  pose proof (at_most_sublist _ _
    (appends_issued _ _ p1 (updateDocumentAddTags_appends ssm event))) as H2.
  destruct (updateDocumentAddTags ssm event p1) as [[d2|e] p2]; simpl.
  2: { exists "". do 2 (apply sublist_step; [done|]).
       apply (recover_sublist ssm event e p2 [_; _]). }
  pose proof (at_most_sublist _ _
    (appends_issued _ _ p2 (updateDocumentRemoveTags_appends ssm event))) as H3.
  destruct (updateDocumentRemoveTags ssm event p2) as [[d3|e] p3]; simpl.
  2: { exists "". do 3 (apply sublist_step; [done|]).
       apply (recover_sublist ssm event e p3 [_]). }
  destruct (appends_issued _ _ p3 (updateDocumentDefaultVersion_appends ssm event))
    as [E4|[v E4]]; [exists ""|exists v]; rewrite E4;
    do 3 (apply sublist_step; [done|]); simpl;
    [apply sublist_cons|apply sublist_skip];
    (destruct (updateDocumentDefaultVersion ssm event p3) as [[d4|e] p4]; simpl;
      [apply sublist_nil_l|apply (recover_sublist ssm event e p4 [])]).
Qed.

Lemma not_In_at_most (req x : SSM.request) l : at_most req l -> x <> req -> ~ In x l.
Proof. intros [->| ->] Hne; simpl; [tauto|]. intros [H|[]]. by apply Hne. Qed.

(** X5. A tag removal never comes alone: when an update issues its
    remove-tags call, the add-tags call that carries the whole new tag list
    comes immediately before it. *)
Theorem Update_remove_follows_add (ssm : SSM.client) (event : Event) (p : Process) :
  In (removeTagsRequest event) (issued (Update ssm event) p) ->
  exists before after,
    issued (Update ssm event) p =
      before ++ addTagsRequest event :: removeTagsRequest event :: after.
Proof.
  assert (forall err q, ~ In (removeTagsRequest event) (issued (recover ssm event err) q)) as Hr.
  { intros err q. apply (not_In_at_most (createDocumentRequest event)); [|discriminate].
    apply (appends_issued _ _ q (recover_appends ssm event err)). }
  rewrite Update_issued_stepwise. cbv zeta.
  pose proof (not_In_at_most _ (removeTagsRequest event) _
    (appends_issued _ _ p (updateDocument_appends ssm event)) ltac:(discriminate)) as H1.
  destruct (updateDocument ssm event p) as [[d1|e] p1]; simpl.
  2: { intros [H|H]%in_app_or; [done|by apply Hr in H]. }
  pose proof (not_In_at_most _ (removeTagsRequest event) _
    (appends_issued _ _ p1 (updateDocumentAddTags_appends ssm event)) ltac:(discriminate)) as H2.
  pose proof (updateDocumentAddTags_issued ssm event p1) as E2.
  destruct (updateDocumentAddTags ssm event p1) as [[d2|e] p2]; simpl.
  2: { intros [H|[H|H]%in_app_or]%in_app_or; [done|done|by apply Hr in H]. }
  pose proof (updateDocumentRemoveTags_issued ssm event p2) as E3.
  intros [H|[H|[H|H]%in_app_or]%in_app_or]%in_app_or; [done|done| |exfalso].
  - destruct (String.eqb _ _); simpl in E3; [by rewrite E3 in H|].
    destruct (length _ =? 0); simpl in E3; [by rewrite E3 in H|].
    rewrite E2, E3. eexists _, _. reflexivity.
  - destruct (updateDocumentRemoveTags ssm event p2) as [[d3|e] p3]; simpl in H;
      [|by apply Hr in H].
    apply in_app_or in H as [H|H].
    + destruct (appends_issued _ _ p3 (updateDocumentDefaultVersion_appends ssm event))
        as [E4|[v E4]]; rewrite E4 in H; [done|].
      by destruct H as [H|[]].
    + unfold ending in H.
      destruct (updateDocumentDefaultVersion ssm event p3) as [[d4|e] p4]; simpl in H;
        [done|by apply Hr in H].
Qed.

Lemma Update_remove_follows_add_witness :
  exists before after,
    issued (Update (Scenario.accepting "2") Scenario.tagDropped) initial =
      before ++ addTagsRequest Scenario.tagDropped
             :: removeTagsRequest Scenario.tagDropped :: after.
Proof.
  apply (Update_remove_follows_add (Scenario.accepting "2") Scenario.tagDropped initial).
  vm_compute. right. by left.
Defined.

(** X6. In a process whose [latestVersion] is not set, an update whose
    step 1 leaves [latestVersion] as it is issues no promote call. *)
Theorem Update_fresh_process_no_promotion
    (ssm : SSM.client) (event : Event) (p : Process) :
  JS.truthy (latestVersion p) = false ->
  latestVersion (snd (updateDocument ssm event p)) = latestVersion p ->
  List.filter SSM.is_updateDocumentDefaultVersion (issued (Update ssm event) p) = [].
Proof. apply Update_without_version. Qed.

Lemma Update_fresh_process_no_promotion_witness :
  List.filter SSM.is_updateDocumentDefaultVersion
    (issued (Update (Scenario.accepting "2") Scenario.noChange) initial) = [].
Proof.
  apply (Update_fresh_process_no_promotion (Scenario.accepting "2") Scenario.noChange initial);
    reflexivity.
Defined.

(** X7. A fulfilled update hands back the event of the invocation with
    the name added to its response values and nothing else changed,
    whether the pipeline ran through or the document was re-created. *)
Theorem Update_fulfilled_result
    (ssm : SSM.client) (event result : Event) (p p' : Process) :
  Update ssm event p = (Fulfilled result, p') ->
  result = addResponseValue "Name" (Name (ResourceProperties event)) event
  /\ ResponseValues result !! "Name" = Some (Name (ResourceProperties event))
  /\ (forall key, key <> "Name" ->
        ResponseValues result !! key = ResponseValues event !! key)
  /\ ResourceProperties result = ResourceProperties event
  /\ OldResourceProperties result = OldResourceProperties event.
Proof.
  intros H.
  assert (result = addResponseValue "Name" (Name (ResourceProperties event)) event) as ->.
  { rewrite Update_stepwise in H.
    unfold stepwise, after1, after2, after3, after4, recover, finish, settle in H.
    unfold Create, send, resolve, reject in H.
    repeat (case_match; simplify_eq); congruence. }
  split; [done|]. split; [apply lookup_insert_eq|]. split; [|done].
  intros key Hkey. simpl. by rewrite lookup_insert_ne.
Qed.

Lemma Update_fulfilled_result_witness :
  ResponseValues
    (addResponseValue "Name" "doc1" Scenario.contentChange) !! "Name" = Some "doc1".
Proof.
  pose proof (Update_fulfilled_result (Scenario.accepting "2") Scenario.contentChange
    (addResponseValue "Name" "doc1" Scenario.contentChange) initial
    (snd (Update (Scenario.accepting "2") Scenario.contentChange initial)) eq_refl)
    as (_ & H & _).
  exact H.
Defined.

(** X8. Only a successful content update writes [latestVersion]:
    [Create] and [Delete] leave it as it is, and after an update it is the
    version of the reply when step 1 issued its call and the call
    succeeded, and what it was before in every other case. *)
Theorem latestVersion_written_by_step1 (ssm : SSM.client) (event : Event) (p : Process) :
  latestVersion (snd (Create ssm event p)) = latestVersion p
  /\ latestVersion (snd (Delete ssm event p)) = latestVersion p
  /\ latestVersion (snd (Update ssm event p)) =
       (if decide (contentUnchanged event) then latestVersion p
        else match ssm (calls p) (updateDocumentRequest event) with
             | SSM.success data => SSM.LatestVersion data
             | SSM.failure _ => latestVersion p
             end).
Proof.
  split; [apply Create_keeps|]. split.
  { unfold Delete, send. by destruct (ssm _ _). }
  rewrite Update_stepwise. unfold stepwise, settle.
  destruct (decide (contentUnchanged event)) as [H|H].
  - rewrite updateDocument_unchanged by done. apply after1_keeps.
  - rewrite updateDocument_changed by done.
    destruct (ssm _ _) as [err|data]; [destruct (bool_decide _)|];
      by rewrite after1_keeps.
Qed.

Lemma missingKeys_filter (oldTags newTags : TagList) :
  missingKeys oldTags newTags =
    List.filter (fun k => negb (existsb (String.eqb k) (map Key newTags))) (map Key oldTags).
Proof.
  induction oldTags as [|t oldTags IH]; simpl; [done|].
  destruct (existsb _ _); simpl; by rewrite IH.
Qed.

Lemma makeTags_keys (event : Event) (properties : Properties) :
  map Key (makeTags event properties) = systemTagKeys ++ userTagKeys properties.
Proof.
  rewrite makeTags_unfold, map_app. f_equal. unfold userTagKeys.
  destruct (Tags properties) as [o|]; [|done].
  rewrite map_map. simpl. apply map_id.
Qed.

(** X9. The keys that the tag-removal step names are the user tag keys
    of the previous state, in their order, that are neither the key of a
    system tag nor a user tag key of the desired state. *)
Theorem removed_keys_are_stale_user_keys
    (event : Event) (oldProperties newProperties : Properties) :
  getMissingTags (makeTags event oldProperties) (makeTags event newProperties) =
    List.filter
      (fun k => negb (existsb (String.eqb k)
                        ([ "aws-cloudformation:stack-id";
                           "aws-cloudformation:stack-name";
                           "aws-cloudformation:logical-id" ]
                         ++ userTagKeys newProperties)))
      (userTagKeys oldProperties).
Proof.
  rewrite getMissingTags_eq_missingKeys, missingKeys_filter, !makeTags_keys.
  rewrite List.filter_app. unfold systemTagKeys at 2. simpl. reflexivity.
Qed.

(** ** The serialization of a document determines the document *)

Section Documents.

Import JSON.

Implicit Types (v : json) (r : string).

Lemma json_induction (P : json -> Prop) :
  P JNull -> (forall b, P (JBool b)) -> (forall t, P (JNumber t)) ->
  (forall s, P (JString s)) ->
  (forall items, Forall P items -> P (JArray items)) ->
  (forall fields, Forall (fun kv => P (snd kv)) fields -> P (JObject fields)) ->
  forall v, P v.
Proof.
  intros Hnull Hbool Hnum Hstr Harr Hobj. fix IH 1.
  intros [|b|t|s|items|fields]; [done|done|done|done| |].
  - apply Harr. induction items as [|x items IHitems]; constructor; [apply IH|done].
  - apply Hobj. induction fields as [|kv fields IHfields]; constructor; [apply IH|done].
Qed.

Lemma append_nil_r s : s +:+ "" = s.
Proof. induction s as [|c s IH]; [done|]. by rewrite append_cons, IH. Qed.

Lemma join_items x items r :
  join "," (map stringify (x :: items)) +:+ r = stringify x +:+ more_items items r.
Proof.
  revert x. induction items as [|y items IH]; intros x.
  - reflexivity.
  - change (join "," (map stringify (x :: y :: items)))
      with (stringify x +:+ "," +:+ join "," (map stringify (y :: items))).
    rewrite !append_assoc, IH. reflexivity.
Qed.

Lemma join_fields (kv : string * json) fields r :
  join "," (map (fun kv => quote (fst kv) +:+ ":" +:+ stringify (snd kv)) (kv :: fields)) +:+ r
  = quote (fst kv) +:+ ":" +:+ stringify (snd kv) +:+ more_fields fields r.
Proof.
  revert kv. induction fields as [|kv' fields IH]; intros kv.
  - cbn [map join more_fields]. by rewrite !append_assoc.
  - change (join "," (map (fun kv => quote (fst kv) +:+ ":" +:+ stringify (snd kv))
                        (kv :: kv' :: fields)))
      with ((quote (fst kv) +:+ ":" +:+ stringify (snd kv)) +:+ "," +:+
            join "," (map (fun kv => quote (fst kv) +:+ ":" +:+ stringify (snd kv))
                        (kv' :: fields))).
    rewrite !append_assoc, IH. cbn [more_fields]. by rewrite ?append_assoc.
Qed.

Lemma stringify_array items r :
  stringify (JArray items) +:+ r =
    "[" +:+ match items with
            | [] => "]" +:+ r
            | x :: items' => stringify x +:+ more_items items' ("]" +:+ r)
            end.
Proof.
  destruct items as [|x items]; [reflexivity|].
  change (stringify (JArray (x :: items)))
    with ("[" +:+ join "," (map stringify (x :: items)) +:+ "]").
  by rewrite !append_assoc, join_items.
Qed.

Lemma stringify_object fields r :
  stringify (JObject fields) +:+ r =
    "{" +:+ match fields with
            | [] => "}" +:+ r
            | kv :: fields' =>
                quote (fst kv) +:+ ":" +:+ stringify (snd kv)
                  +:+ more_fields fields' ("}" +:+ r)
            end.
Proof.
  destruct fields as [|kv fields]; [reflexivity|].
  change (stringify (JObject (kv :: fields)))
    with ("{" +:+ join "," (map (fun kv => quote (fst kv) +:+ ":" +:+ stringify (snd kv))
                              (kv :: fields)) +:+ "}").
  by rewrite !append_assoc, join_fields.
Qed.

(** A serialized value starts with the first character of its kind. *)
Lemma stringify_first_char v r :
  wf_json v = true -> exists s, stringify v +:+ r = String (first_char v) s.
Proof.
  destruct v as [|[|]|[|c t]|s|items|fields]; intros Hwf; try done.
  - by eexists.
  - by eexists.
  - by eexists.
  - by eexists.
  - change (stringify (JString s)) with (quote s). rewrite quote_append. by eexists.
  - rewrite stringify_array. by eexists.
  - rewrite stringify_object. by eexists.
Qed.

Lemma first_char_value_start v : wf_json v = true -> value_start (first_char v) = true.
Proof.
  destruct v as [|[|]|[|c t]|s|items|fields]; try done.
  simpl. intros [H _]%andb_true_iff. unfold value_start. by rewrite H.
Qed.

Lemma number_text_inj t t' r r' :
  number_chars t = true -> number_chars t' = true -> stops r = true -> stops r' = true ->
  t +:+ r = t' +:+ r' -> t = t' /\ r = r'.
Proof.
  revert t'. induction t as [|c t IH]; intros [|c' t'] Ht Ht' Hr Hr'.
  - done.
  - rewrite append_nil, append_cons. intros ->. simpl in *.
    apply andb_true_iff in Ht' as [Hc _]. by rewrite Hc in Hr.
  - rewrite append_nil, append_cons. intros <-. simpl in *.
    apply andb_true_iff in Ht as [Hc _]. by rewrite Hc in Hr'.
  - rewrite !append_cons. intros [= <- H]. simpl in *.
    apply andb_true_iff in Ht as [_ Ht]. apply andb_true_iff in Ht' as [_ Ht'].
    destruct (IH t' Ht Ht' Hr Hr' H) as [-> ->]. done.
Qed.

Lemma first_char_eq v v' r r' :
  wf_json v = true -> wf_json v' = true ->
  stringify v +:+ r = stringify v' +:+ r' -> first_char v = first_char v'.
Proof.
  intros Hwf Hwf' H.
  destruct (stringify_first_char v r Hwf) as [s Hs].
  destruct (stringify_first_char v' r' Hwf') as [s' Hs'].
  rewrite Hs, Hs' in H. by injection H.
Qed.

Lemma not_number_start c :
  number_char c = true ->
  c <> "n"%char /\ c <> "t"%char /\ c <> "f"%char /\ c <> dquote
  /\ c <> "["%char /\ c <> "{"%char.
Proof. intros Hc. repeat split; intros ->; vm_compute in Hc; discriminate. Qed.

Lemma same_kind v v' r r' :
  wf_json v = true -> wf_json v' = true ->
  stringify v +:+ r = stringify v' +:+ r' -> kind_of v = kind_of v'.
Proof.
  intros Hwf Hwf' H. pose proof (first_char_eq _ _ _ _ Hwf Hwf' H) as Hc.
  destruct v as [|[|]|[|c t]|s|items|fields];
    destruct v' as [|[|]|[|c' t']|s'|items'|fields']; try done;
    simpl in Hc; try (vm_compute in Hc; discriminate Hc).
  all: simpl in Hwf, Hwf'.
  all: try (apply andb_true_iff in Hwf as [Hwf _];
            destruct (not_number_start _ Hwf) as (?&?&?&?&?&?);
            unfold dquote in *; congruence).
  all: try (apply andb_true_iff in Hwf' as [Hwf' _];
            destruct (not_number_start _ Hwf') as (?&?&?&?&?&?);
            unfold dquote in *; congruence).
Qed.

Lemma wf_number_chars t : wf_number t = true -> number_chars t = true.
Proof. by destruct t. Qed.

Lemma not_value_start v r c s :
  wf_json v = true -> value_start c = false -> stringify v +:+ r <> String c s.
Proof.
  intros Hwf Hc H. destruct (stringify_first_char v r Hwf) as [s' Hs'].
  rewrite Hs' in H. injection H as <- _.
  by rewrite (first_char_value_start v Hwf) in Hc.
Qed.

Lemma stops_more_items items r : stops (more_items items ("]" +:+ r)) = true.
Proof. by destruct items. Qed.

Lemma stops_more_fields fields r : stops (more_fields fields ("}" +:+ r)) = true.
Proof. by destruct fields. Qed.

Lemma more_items_inj items :
  Forall determined items -> forallb wf_json items = true ->
  forall items' r r',
    forallb wf_json items' = true ->
    more_items items ("]" +:+ r) = more_items items' ("]" +:+ r') ->
    items = items' /\ r = r'.
Proof.
  induction 1 as [|x items Hx _ IH]; intros Hwf [|x' items'] r r' Hwf'.
  - intros H%append_inv_head. done.
  - cbn [more_items]. rewrite !append_cons. discriminate.
  - cbn [more_items]. rewrite !append_cons. discriminate.
  - cbn [more_items]. intros H%append_inv_head.
    simpl in Hwf, Hwf'.
    apply andb_true_iff in Hwf as [Hwfx Hwf]. apply andb_true_iff in Hwf' as [Hwfx' Hwf'].
    destruct (Hx Hwfx x' _ _ Hwfx' (stops_more_items _ _) (stops_more_items _ _) H)
      as [<- H'].
    destruct (IH Hwf items' r r' Hwf' H') as [<- <-]. done.
Qed.

Lemma more_fields_inj fields :
  Forall (fun kv => determined (snd kv)) fields ->
  forallb (fun kv => wf_json (snd kv)) fields = true ->
  forall fields' r r',
    forallb (fun kv => wf_json (snd kv)) fields' = true ->
    more_fields fields ("}" +:+ r) = more_fields fields' ("}" +:+ r') ->
    fields = fields' /\ r = r'.
Proof.
  induction 1 as [|[k x] fields Hx _ IH]; intros Hwf [|[k' x'] fields'] r r' Hwf'.
  - intros H%append_inv_head. done.
  - cbn [more_fields]. rewrite !append_cons. discriminate.
  - cbn [more_fields]. rewrite !append_cons. discriminate.
  - cbn [more_fields fst snd]. intros H%append_inv_head.
    apply quote_inj in H as [<- H]. apply append_inv_head in H.
    simpl in Hwf, Hwf', Hx.
    apply andb_true_iff in Hwf as [Hwfx Hwf]. apply andb_true_iff in Hwf' as [Hwfx' Hwf'].
    destruct (Hx Hwfx x' _ _ Hwfx' (stops_more_fields _ _) (stops_more_fields _ _) H)
      as [<- H'].
    destruct (IH Hwf fields' r r' Hwf' H') as [<- <-]. done.
Qed.

Lemma stringify_determined v : determined v.
Proof.
  induction v as [|b|t|s|items IH|fields IH] using json_induction;
    intros Hwf v' r r' Hwf' Hr Hr' H;
    pose proof (same_kind _ _ _ _ Hwf Hwf' H) as Hkind.
  - destruct v' as [|[|]| | | |]; try done. by apply append_inv_head in H as ->.
  - destruct b, v' as [|[|]| | | |]; try done; by apply append_inv_head in H as ->.
  - destruct v' as [|[|]|t'| | |]; try done.
    apply wf_number_chars in Hwf, Hwf'.
    destruct (number_text_inj t t' r r' Hwf Hwf' Hr Hr' H) as [-> ->]. done.
  - destruct v' as [|[|]| |s'| |]; try done.
    by apply quote_inj in H as [-> ->].
  - destruct v' as [|[|]| | |items'|]; try done.
    rewrite !stringify_array in H. apply append_inv_head in H.
    simpl in Hwf, Hwf'.
    destruct items as [|x items], items' as [|x' items'].
    + by apply append_inv_head in H as ->.
    + apply andb_true_iff in Hwf' as [Hwfx' _].
      symmetry in H. rewrite append_cons in H. by apply not_value_start in H.
    + apply andb_true_iff in Hwf as [Hwfx _].
      rewrite (append_cons _ _ r') in H. by apply not_value_start in H.
    + apply andb_true_iff in Hwf as [Hwfx Hwf].
      apply andb_true_iff in Hwf' as [Hwfx' Hwf'].
      apply Forall_cons in IH as [Hx IH].
      destruct (Hx Hwfx x' _ _ Hwfx' (stops_more_items _ _) (stops_more_items _ _) H)
        as [<- H'].
      destruct (more_items_inj items IH Hwf items' r r' Hwf' H') as [<- <-]. done.
  - destruct v' as [|[|]| | | |fields']; try done.
    rewrite !stringify_object in H. apply append_inv_head in H.
    simpl in Hwf, Hwf'.
    destruct fields as [|[k x] fields], fields' as [|[k' x'] fields'].
    + by apply append_inv_head in H as ->.
    + rewrite quote_append, append_cons in H. discriminate.
    + rewrite quote_append, append_cons in H. discriminate.
    + apply andb_true_iff in Hwf as [Hwfx Hwf].
      apply andb_true_iff in Hwf' as [Hwfx' Hwf'].
      apply Forall_cons in IH as [Hx IH]. cbn [fst snd] in *.
      apply quote_inj in H as [<- H]. apply append_inv_head in H.
      destruct (Hx Hwfx x' _ _ Hwfx' (stops_more_fields _ _) (stops_more_fields _ _) H)
        as [<- H'].
      destruct (more_fields_inj fields IH Hwf fields' r r' Hwf' H') as [<- <-]. done.
Qed.

End Documents.

(** ** The conversion of the Boolean parameters *)

Section Conversion.

Implicit Types (param : json) (event : Event).

Lemma mapM_Returned {A B} (f : A -> Completion B) l l' :
  mapM f l = Returned l' <-> Forall2 (fun x y => f x = Returned y) l l'.
Proof.
  revert l'. induction l as [|x l IH]; intros l'; simpl.
  - split; [intros [= <-]; constructor|by inversion 1].
  - unfold mbind, Completion_bind at 1. destruct (f x) as [y|e] eqn:E.
    + unfold mbind, Completion_bind. destruct (mapM f l) as [k|e].
      * split.
        -- intros [= <-]. constructor; [done|]. by apply IH.
        -- inversion 1 as [|? y' ? k' Hy Hk]; subst. apply IH in Hk.
           rewrite E in Hy. by simplify_eq.
      * split; [done|]. inversion 1 as [|? y' ? k' Hy Hk]; subst. by apply IH in Hk.
    + split; [done|]. inversion 1; subst. congruence.
Qed.

Lemma mapM_Thrown {A B} (f : A -> Completion B) l :
  (exists e, mapM f l = Thrown e) <-> Exists (fun x => exists e, f x = Thrown e) l.
Proof.
  induction l as [|x l IH]; simpl.
  - split; [by intros [e ?]|by inversion 1].
  - unfold mbind, Completion_bind at 1. destruct (f x) as [y|e] eqn:E.
    + unfold mbind, Completion_bind. destruct (mapM f l) as [k|e].
      * split; [by intros [e ?]|]. inversion 1 as [?? [e ?]|?? Hl]; subst; [congruence|].
        apply IH in Hl as [e ?]. done.
      * split; [intros _; right; apply IH; by eexists|by eexists].
    + split; [intros _; left; by eexists|by eexists].
Qed.

Lemma bind_Thrown {A B} (m : Completion A) (k : A -> B) :
  (exists e, (a ← m; Returned (k a)) = Thrown e) <-> exists e, m = Thrown e.
Proof. destruct m; simpl; split; intros [e' ?]; by eauto. Qed.

Lemma bind_Returned {A B} (m : Completion A) (k : A -> B) b :
  (a ← m; Returned (k a)) = Returned b <-> exists a, m = Returned a /\ b = k a.
Proof.
  destruct m; simpl; split.
  - intros [= <-]. by eauto.
  - by intros (a' & [= <-] & ->).
  - done.
  - by intros (a' & ? & _).
Qed.

(** When the conversion of a value to a string returns. *)
Lemma toString_cases v :
  if Value.convertible v
  then exists s, Value.toString v = Returned s
  else Value.toString v = Thrown Value.notPrimitive.
Proof.
  induction v as [|b|t|s|items IH|fields _] using json_induction.
  - by eexists.
  - destruct b; by eexists.
  - by eexists.
  - by eexists.
  - cbn [Value.convertible].
    change (Value.toString (JArray items)) with
      (texts ← mapM (fun x => match x with JNull => Returned "" | _ => Value.toString x end)
                    items;
       Returned (JSON.join "," texts)).
    assert (if forallb Value.convertible items
            then exists l, mapM (fun x => match x with
                                          | JNull => Returned ""
                                          | _ => Value.toString x
                                          end) items = Returned l
            else mapM (fun x => match x with
                                | JNull => Returned ""
                                | _ => Value.toString x
                                end) items = Thrown Value.notPrimitive) as H.
    { induction IH as [|x items Hx _ IHitems]; [by eexists|].
      cbn [forallb mapM]. destruct (Value.convertible x) eqn:Ex; cbn [andb].
      - assert (exists s, match x with JNull => Returned "" | _ => Value.toString x end
                          = Returned s) as [s ->] by (destruct x; by eauto).
        cbn. destruct (forallb Value.convertible items).
        + destruct IHitems as [l ->]. by eexists.
        + by rewrite IHitems.
      - destruct x; try done; by rewrite Hx. }
    destruct (forallb Value.convertible items).
    + destruct H as [l ->]. by eexists.
    + by rewrite H.
  - cbn. destruct (bool_decide _); [done|by eexists].
Qed.

(** When the comparison with a string returns, and what. *)
Lemma looseEq_cases (v : option json) lit :
  if Value.comparable v
  then Value.looseEq v lit = Returned (Value.equals v lit)
  else Value.looseEq v lit = Thrown Value.notPrimitive.
Proof.
  unfold Value.equals.
  destruct v as [[|b|t|s|items|fields]|]; try reflexivity.
  - pose proof (toString_cases (JArray items)) as H.
    unfold Value.comparable, Value.looseEq.
    destruct (Value.convertible (JArray items)); [destruct H as [s ->]|rewrite H]; done.
  - pose proof (toString_cases (JObject fields)) as H.
    unfold Value.comparable, Value.looseEq.
    destruct (Value.convertible (JObject fields)); [destruct H as [s ->]|rewrite H]; done.
Qed.

Lemma equals_boolean b lit : Value.equals (Some (JBool b)) lit = false.
Proof. reflexivity. Qed.

Lemma get_set_same (o : JS.object json) k x : JS.get (Value.set o k x) k = Some x.
Proof.
  induction o as [|[k' v] o IH]; simpl.
  - by rewrite String.eqb_refl.
  - destruct (String.eqb k' k) eqn:E; simpl; rewrite E; [done|by apply IH].
Qed.

Lemma get_set_other (o : JS.object json) k k' x :
  k' <> k -> JS.get (Value.set o k x) k' = JS.get o k'.
Proof.
  intros Hk.
  assert (String.eqb k k' = false) as Hkk' by (apply String.eqb_neq; congruence).
  induction o as [|[k0 v] o IH]; simpl.
  - by rewrite Hkk'.
  - destruct (String.eqb k0 k) eqn:E; simpl; [|by rewrite IH].
    apply String.eqb_eq in E as ->. by rewrite Hkk'.
Qed.

Lemma keys_set (o : JS.object json) k x :
  is_Some (JS.get o k) -> JS.keys (Value.set o k x) = JS.keys o.
Proof.
  induction o as [|[k' v] o IH]; simpl; [by intros [? ?]|].
  destruct (String.eqb k' k) eqn:E; simpl; [done|]. intros H. f_equal. by apply IH.
Qed.

Lemma set_eq_iff (o : JS.object json) k x v :
  JS.get o k = Some v -> Value.set o k x = o <-> x = v.
Proof.
  induction o as [|[k' v'] o IH]; simpl; [done|].
  destruct (String.eqb k' k) eqn:E.
  - intros [= ->]. split; [by intros [= ->]|by intros ->].
  - intros H. rewrite <- (IH H). split; [by intros [= ->]|by intros ->].
Qed.

Lemma forallb_set (P : json -> bool) (o : JS.object json) k x :
  forallb (fun kv => P (snd kv)) o = true -> P x = true ->
  forallb (fun kv => P (snd kv)) (Value.set o k x) = true.
Proof.
  intros Ho Hx. induction o as [|[k' v] o IH]; simpl in *.
  - by rewrite Hx.
  - apply andb_true_iff in Ho as [Hv Ho].
    destruct (String.eqb k' k); simpl; [by rewrite Hx|]. by rewrite Hv, IH.
Qed.

Lemma forallb_get (P : json -> bool) (o : JS.object json) k v :
  forallb (fun kv => P (snd kv)) o = true -> JS.get o k = Some v -> P v = true.
Proof.
  induction o as [|[k' v'] o IH]; simpl; [done|].
  intros [Hv Ho]%andb_true_iff. destruct (String.eqb k' k); [by intros [= <-]|by apply IH].
Qed.

(** The body of the loop: the entries it throws on, and what it makes of
    the others. *)
Lemma fixParameter_cases param :
  fixParameter param =
    if rejects param
    then Thrown (match param with
                 | JNull => TypeError "Cannot read properties of null (reading 'type')"
                 | _ => Value.notPrimitive
                 end)
    else Returned (convert param).
Proof.
  destruct param as [|b|t|s|items|fields]; try reflexivity.
  unfold fixParameter, rejects, convert, isBooleanParameter.
  cbn [Value.property Value.has mbind Completion_bind].
  pose proof (looseEq_cases (JS.get fields "type") "Boolean") as Ht.
  destruct (Value.comparable (JS.get fields "type")); rewrite Ht; [|done].
  cbn [negb orb].
  destruct (Value.equals (JS.get fields "type") "Boolean"); [|done].
  destruct (bool_decide (is_Some (JS.get fields "default"))); [|done].
  cbn [andb].
  pose proof (looseEq_cases (JS.get fields "default") "true") as Hd.
  destruct (Value.comparable (JS.get fields "default")); by rewrite Hd.
Qed.

Lemma fixParameter_Thrown param :
  (exists e, fixParameter param = Thrown e) <-> rejects param = true.
Proof.
  rewrite fixParameter_cases. destruct (rejects param); split; try done.
  - by eexists.
  - by intros [e ?].
Qed.

Lemma fixParameter_Returned param param' :
  fixParameter param = Returned param' <-> rejects param = false /\ param' = convert param.
Proof.
  rewrite fixParameter_cases. destruct (rejects param); split; try done.
  - by intros [? _].
  - by intros [= <-].
  - by intros [_ ->].
Qed.

(** What the body of the loop makes of an entry. *)
Lemma isBooleanParameter_convert param :
  isBooleanParameter (convert param) = isBooleanParameter param.
Proof.
  destruct param as [| | | | |fields]; try done.
  unfold convert. destruct (isBooleanParameter (JObject fields)) eqn:E; [|done].
  unfold isBooleanParameter in *. rewrite get_set_same, get_set_other by done.
  apply andb_true_iff in E as [-> _]. done.
Qed.

Lemma defaultOf_convert param :
  isBooleanParameter param = true ->
  defaultOf (convert param) = Some (JBool (Value.equals (defaultOf param) "true")).
Proof.
  destruct param as [| | | | |fields]; try done.
  unfold convert. intros ->. simpl. by rewrite get_set_same.
Qed.

Lemma property_convert param name :
  name <> "default" -> Value.property (convert param) name = Value.property param name.
Proof.
  intros Hname. destruct param as [| | | | |fields]; try done.
  unfold convert. destruct (isBooleanParameter _); [|done].
  simpl. by rewrite get_set_other.
Qed.

Lemma rejects_convert param : rejects param = false -> rejects (convert param) = false.
Proof.
  destruct param as [| | | | |fields]; try done.
  unfold convert. destruct (isBooleanParameter (JObject fields)) eqn:E; [|done].
  intros H. pose proof (isBooleanParameter_convert (JObject fields)) as E'.
  unfold convert in E'. rewrite E in E'.
  unfold rejects in *. rewrite E'. rewrite E in H.
  rewrite get_set_same, get_set_other by done.
  apply orb_false_iff in H as [-> _]. done.
Qed.

Lemma wf_convert param : wf_json param = true -> wf_json (convert param) = true.
Proof.
  destruct param as [| | | | |fields]; try done.
  unfold convert. destruct (isBooleanParameter _); [|done].
  simpl. intros H. by apply forallb_set.
Qed.

Lemma convert_fixed param : convert param = param <-> settled param.
Proof.
  unfold settled. destruct param as [| | | | |fields]; try done.
  unfold convert. destruct (isBooleanParameter (JObject fields)) eqn:E; [|done].
  unfold isBooleanParameter in E. apply andb_true_iff in E as [_ E].
  apply bool_decide_eq_true in E as [default E]. simpl. rewrite E. split.
  - intros [= H] _. apply (set_eq_iff _ _ _ _ E) in H.
    destruct default; try done. rewrite equals_boolean in H. congruence.
  - intros H. specialize (H eq_refl). injection H as ->. f_equal.
    by apply (set_eq_iff _ _ _ _ E).
Qed.

Lemma settled_convert_twice param : settled (convert (convert param)).
Proof.
  unfold settled. rewrite !isBooleanParameter_convert. intros E.
  rewrite defaultOf_convert by (by rewrite isBooleanParameter_convert).
  rewrite (defaultOf_convert param E). by rewrite equals_boolean.
Qed.

(** The loop. *)
Lemma fixParameters_Returned l l' :
  Forall2 (fun x y => fixParameter x = Returned y) l l' <->
  Forall (fun x => rejects x = false) l /\ l' = map convert l.
Proof.
  split.
  - induction 1 as [|x y l l' Hxy _ [IH ->]]; [done|].
    apply fixParameter_Returned in Hxy as [Hx ->]. split; [by constructor|done].
  - intros [H ->]. induction H as [|x l Hx _ IH]; constructor; [|done].
    by apply fixParameter_Returned.
Qed.

Lemma fixParameters_fields_Returned (fields fields' : list (string * json)) :
  mapM (fun kv => param ← fixParameter (snd kv); Returned (fst kv, param)) fields
    = Returned fields' <->
  exists params',
    Forall2 (fun x y => fixParameter x = Returned y) (map snd fields) params'
    /\ fields' = zip_with (fun kv param => (fst kv, param)) fields params'.
Proof.
  rewrite mapM_Returned. split.
  - induction 1 as [|[k x] [k' y] fields fields' Hxy _ (params' & IH & ->)].
    + exists []. by split; [constructor|].
    + apply bind_Returned in Hxy as (y' & Hy & [= -> ->]).
      exists (y' :: params'). by split; [constructor|].
  - intros (params' & H & ->). revert params' H.
    induction fields as [|[k x] fields IH]; intros params'; simpl.
    + inversion 1. constructor.
    + inversion 1 as [|? y ? params'' Hy Hrest]; subst. simpl. constructor; [|by apply IH].
      simpl. by rewrite Hy.
Qed.

Lemma fixParameters_Thrown l :
  Exists (fun x => exists e, fixParameter x = Thrown e) l
  <-> Exists (fun x => rejects x = true) l.
Proof.
  split; intros H; (eapply Exists_impl; [exact H|]); intros x; by apply fixParameter_Thrown.
Qed.

Lemma fixParameters_fields_Thrown (fields : list (string * json)) :
  (exists e, mapM (fun kv => param ← fixParameter (snd kv); Returned (fst kv, param)) fields
             = Thrown e)
  <-> Exists (fun x => rejects x = true) (map snd fields).
Proof.
  rewrite mapM_Thrown. change (map snd fields) with (snd <$> fields).
  rewrite Exists_fmap.
  split; intros H; (eapply Exists_impl; [exact H|]); intros [k x]; simpl.
  - by intros H'%bind_Thrown%fixParameter_Thrown.
  - intros H'. by apply bind_Thrown, fixParameter_Thrown.
Qed.

Lemma withContent_same event : withContent (Content (ResourceProperties event)) event = event.
Proof. by destruct event as [? ? [] ? ?]. Qed.

(** The function, case by case. *)
Lemma fixBooleanParameters_cases event :
  fixBooleanParameters event =
    match Content (ResourceProperties event) with
    | JNull => Thrown (TypeError "Cannot read properties of null (reading 'parameters')")
    | JObject fields =>
        match JS.get fields "parameters" with
        | Some parameters =>
            parameters' ← fixParameters parameters;
            Returned (withContent (JObject (Value.set fields "parameters" parameters')) event)
        | None => Returned event
        end
    | _ => Returned event
    end.
Proof.
  unfold fixBooleanParameters.
  destruct (Content (ResourceProperties event)) as [|b|t|s|items|fields] eqn:E; try reflexivity.
  simpl. destruct (JS.get fields "parameters") as [[|b|t|s|items|ps]|] eqn:Eps;
    try reflexivity; simpl.
  all: rewrite (proj2 (set_eq_iff _ _ _ _ Eps) eq_refl).
  all: by rewrite <- E, withContent_same.
Qed.

(** The function, case by case. *)
(** When the function returns, and what. *)
Lemma fixBooleanParameters_Returned event event' :
  fixBooleanParameters event = Returned event' <->
  Content (ResourceProperties event) <> JNull
  /\ Value.property (Content (ResourceProperties event)) "parameters" <> Returned (Some JNull)
  /\ exists params',
       Forall2 (fun x y => fixParameter x = Returned y)
         (parametersOf (Content (ResourceProperties event))) params'
       /\ event' = withContent (withParameters (Content (ResourceProperties event)) params') event.
Proof.
  rewrite fixBooleanParameters_cases.
  pose proof (withContent_same event) as Hsame.
  destruct (Content (ResourceProperties event)) as [|b|t|s|items|fields] eqn:E;
    unfold parametersOf, withParameters; simpl.
  1: by split; [|intros [? _]].
  1-4: split; [intros [= <-]; split; [done|split; [done|]]; exists []; by split; [constructor|]
              |intros (_ & _ & params' & _ & ->); by rewrite Hsame].
  destruct (JS.get fields "parameters") as [[|b|t|s|items|ps]|] eqn:Eps; simpl.
  - split; [done|]. by intros (_ & H & _).
  - rewrite (proj2 (set_eq_iff _ _ _ _ Eps) eq_refl), Hsame.
    split; [intros [= <-]; split; [done|split; [done|]]; exists []; by split; [constructor|]
           |by intros (_ & _ & params' & _ & ->)].
  - rewrite (proj2 (set_eq_iff _ _ _ _ Eps) eq_refl), Hsame.
    split; [intros [= <-]; split; [done|split; [done|]]; exists []; by split; [constructor|]
           |by intros (_ & _ & params' & _ & ->)].
  - rewrite (proj2 (set_eq_iff _ _ _ _ Eps) eq_refl), Hsame.
    split; [intros [= <-]; split; [done|split; [done|]]; exists []; by split; [constructor|]
           |by intros (_ & _ & params' & _ & ->)].
  - rewrite bind_Returned. split.
    + intros (parameters' & (items' & H%mapM_Returned & ->)%bind_Returned & ->).
      split; [done|split; [done|]]. by exists items'.
    + intros (_ & _ & params' & H%mapM_Returned & ->). eexists. split; [|done].
      apply bind_Returned. by exists params'.
  - rewrite bind_Returned. split.
    + intros (parameters' & (fields' & H & ->)%bind_Returned & ->).
      apply fixParameters_fields_Returned in H as (params' & H & ->).
      split; [done|split; [done|]]. by exists params'.
    + intros (_ & _ & params' & H & ->). eexists. split; [|done].
      apply bind_Returned. eexists. split; [|done].
      apply fixParameters_fields_Returned. by exists params'.
  - split.
    + intros [= <-]. split; [done|split; [done|]]. exists []. by split; [constructor|].
    + intros (_ & _ & params' & _ & ->). by rewrite Hsame.
Qed.

(** The document rebuilt around the converted entries. *)
Lemma zip_with_snd (fields : list (string * json)) params :
  length params = length fields ->
  map snd (zip_with (fun kv param => (fst kv, param)) fields params) = params.
Proof.
  revert params. induction fields as [|kv fields IH]; intros [|x params]; simpl; try done.
  intros [= H]. by rewrite IH.
Qed.

Lemma zip_with_same (fields : list (string * json)) :
  zip_with (fun kv param => (fst kv, param)) fields (map snd fields) = fields.
Proof. induction fields as [|[k x] fields IH]; simpl; [done|]. by rewrite IH. Qed.

Lemma parametersOf_withParameters content params :
  length params = length (parametersOf content) ->
  parametersOf (withParameters content params) = params.
Proof.
  unfold parametersOf, withParameters.
  destruct content as [| | | | |fields]; try by destruct params.
  destruct (JS.get fields "parameters") as [[| | | |items|ps]|] eqn:E; rewrite ?E;
    try by destruct params.
  - by rewrite get_set_same.
  - rewrite get_set_same, length_map. apply zip_with_snd.
Qed.

Lemma withParameters_same content : withParameters content (parametersOf content) = content.
Proof.
  unfold parametersOf, withParameters.
  destruct content as [| | | | |fields]; try done.
  destruct (JS.get fields "parameters") as [[| | | |items|ps]|] eqn:E; try done.
  - f_equal. by apply (set_eq_iff _ _ _ _ E).
  - rewrite zip_with_same. f_equal. by apply (set_eq_iff _ _ _ _ E).
Qed.

Lemma withParameters_eq_iff content params :
  length params = length (parametersOf content) ->
  withParameters content params = content <-> params = parametersOf content.
Proof.
  intros Hlen. split.
  - intros H. by rewrite <- (parametersOf_withParameters content params Hlen), H.
  - intros ->. apply withParameters_same.
Qed.

Lemma property_withParameters content params name :
  name <> "parameters" ->
  Value.property (withParameters content params) name = Value.property content name.
Proof.
  intros Hname. unfold withParameters.
  destruct content as [| | | | |fields]; try done.
  destruct (JS.get fields "parameters") as [[| | | |items|ps]|] eqn:E; try done.
  all: simpl; by rewrite get_set_other.
Qed.

Lemma withParameters_not_null content params :
  content <> JNull ->
  Value.property content "parameters" <> Returned (Some JNull) ->
  withParameters content params <> JNull
  /\ Value.property (withParameters content params) "parameters" <> Returned (Some JNull).
Proof.
  intros Hnull Hps. unfold withParameters.
  destruct content as [| | | | |fields]; try done.
  destruct (JS.get fields "parameters") as [[| | | |items|ps]|] eqn:E; try done.
  all: simpl; by rewrite get_set_same.
Qed.

Lemma wf_parametersOf content :
  wf_json content = true -> forallb wf_json (parametersOf content) = true.
Proof.
  unfold parametersOf. destruct content as [| | | | |fields]; try done.
  simpl. intros Hwf.
  destruct (JS.get fields "parameters") as [[| | | |items|ps]|] eqn:E; try done.
  - apply (forallb_get wf_json _ _ _ Hwf E).
  - pose proof (forallb_get wf_json _ _ _ Hwf E) as H. simpl in H.
    clear E. induction ps as [|[k x] ps IH]; simpl in *; [done|].
    apply andb_true_iff in H as [-> H]. by apply IH.
Qed.

Lemma wf_withParameters content params :
  wf_json content = true -> forallb wf_json params = true ->
  wf_json (withParameters content params) = true.
Proof.
  unfold withParameters. destruct content as [| | | | |fields]; try done.
  simpl. intros Hwf Hparams.
  destruct (JS.get fields "parameters") as [[| | | |items|ps]|] eqn:E; try done.
  - simpl. by apply forallb_set.
  - simpl. apply forallb_set; [done|]. simpl.
    clear E. revert params Hparams.
    induction ps as [|[k x] ps IH]; intros [|y params]; simpl; try done.
    intros [-> H]%andb_true_iff. by apply IH.
Qed.

Lemma wf_map_convert l : forallb wf_json l = true -> forallb wf_json (map convert l) = true.
Proof.
  induction l as [|x l IH]; simpl; [done|].
  intros [Hx Hl]%andb_true_iff. by rewrite wf_convert, IH.
Qed.

Lemma map_convert_fixed l : map convert l = l <-> Forall settled l.
Proof.
  induction l as [|x l IH]; [by split; [constructor|]|].
  rewrite Forall_cons, <- IH, <- convert_fixed. simpl. split.
  - by intros [= -> ->].
  - by intros [-> ->].
Qed.

(** When the function returns, and what: the document with every entry
    converted in its place. *)
Lemma fixBooleanParameters_Returned_convert event event' :
  fixBooleanParameters event = Returned event' <->
  Content (ResourceProperties event) <> JNull
  /\ Value.property (Content (ResourceProperties event)) "parameters" <> Returned (Some JNull)
  /\ Forall (fun x => rejects x = false) (parametersOf (Content (ResourceProperties event)))
  /\ event' =
       withContent
         (withParameters (Content (ResourceProperties event))
            (map convert (parametersOf (Content (ResourceProperties event)))))
         event.
Proof.
  rewrite fixBooleanParameters_Returned. split.
  - intros (? & ? & params' & [? ->]%fixParameters_Returned & ->). done.
  - intros (? & ? & ? & ->). split; [done|split; [done|]].
    eexists. split; [|done]. by apply fixParameters_Returned.
Qed.

End Conversion.

Lemma stringify_inj v v' :
  wf_json v = true -> wf_json v' = true ->
  JSON.stringify v = JSON.stringify v' -> v = v'.
Proof.
  intros Hwf Hwf' H.
  apply (stringify_determined v Hwf v' "" "" Hwf' eq_refl eq_refl).
  by rewrite !append_nil_r.
Qed.

(** X10. On documents whose numbers are well formed, the comparison of
    the serialized contents in step 1 is structural equality: step 1 issues
    no call exactly when the desired content is the previous content and
    the effective target types are equal. *)
Theorem updateDocument_structural_equality (ssm : SSM.client) (event : Event) (p : Process) :
  wf_json (Content (ResourceProperties event)) = true ->
  wf_json (Content (OldResourceProperties event)) = true ->
  (issued (updateDocument ssm event) p = [] <->
     Content (ResourceProperties event) = Content (OldResourceProperties event)
     /\ effectiveTargetType (ResourceProperties event) =
          effectiveTargetType (OldResourceProperties event)).
Proof.
  intros Hwf Hwf'. rewrite updateDocument_issued. case_decide as H.
  - split; [intros _|done]. destruct H as [H Ht]. split; [|done].
    by apply stringify_inj.
  - split; [done|]. intros [Hc Ht]. destruct H. split; [by rewrite Hc|done].
Qed.

Lemma updateDocument_structural_equality_witness :
  issued (updateDocument (Scenario.accepting "3") Scenario.noChange) initial = [].
Proof.
  apply (updateDocument_structural_equality (Scenario.accepting "3") Scenario.noChange initial);
    [reflexivity|reflexivity|split; reflexivity].
Defined.

(** X11. On an event whose desired state carries a content,
    [fixBooleanParameters] throws exactly when the content is [null], when
    its [parameters] is [null], or when the body of the loop throws on one
    of the entries of [parameters]: an entry that is [null]; an entry whose
    [type] is an object with a property [toString] of its own, or an array
    that holds such an object, since [==] cannot turn it into a primitive;
    an entry whose [type] compares equal to ['Boolean'] and whose [default]
    is such an object or array. On every other event it returns. *)
Theorem fixBooleanParameters_throws_iff (event : Event) :
  (exists e, fixBooleanParameters event = Thrown e) <->
  Content (ResourceProperties event) = JNull
  \/ Value.property (Content (ResourceProperties event)) "parameters" = Returned (Some JNull)
  \/ Exists (fun param => rejects param = true)
       (parametersOf (Content (ResourceProperties event))).
Proof.
  rewrite fixBooleanParameters_cases. unfold parametersOf.
  destruct (Content (ResourceProperties event)) as [|b|t|s|items|fields]; simpl.
  1: split; [by left|by eexists].
  1-4: split; [by intros [e ?]|by intros [?|[?|?%Exists_nil]]].
  destruct (JS.get fields "parameters") as [[|b|t|s|items|ps]|] eqn:E; simpl.
  - split; [by right; left|by eexists].
  - split; [by intros [e ?]|by intros [?|[?|?%Exists_nil]]].
  - split; [by intros [e ?]|by intros [?|[?|?%Exists_nil]]].
  - split; [by intros [e ?]|by intros [?|[?|?%Exists_nil]]].
  - rewrite bind_Thrown, bind_Thrown, mapM_Thrown, fixParameters_Thrown.
    split; [by right; right|by intros [?|[?|?]]].
  - rewrite bind_Thrown, bind_Thrown, fixParameters_fields_Thrown.
    split; [by right; right|by intros [?|[?|?]]].
  - split; [by intros [e ?]|by intros [?|[?|?%Exists_nil]]].
Qed.

(** X12. When [fixBooleanParameters] returns, the returned event is the
    given one with, in the content of its desired state, every entry of
    [parameters] replaced in its place by its conversion: [parameters] is
    the object or the array it was, with the same names in the same order,
    and nothing else in the content or in the event differs. The
    conversion of an entry whose [type] compares equal to ['Boolean'] and
    that has a [default] is the same object with the boolean that tells
    whether the old default compared equal to ['true'] stored under
    [default]; the conversion of any other entry is the entry itself. Read
    property by property: a converted Boolean parameter has that boolean
    as its default and every other property as before. *)
Theorem fixBooleanParameters_converts (event event' : Event) :
  fixBooleanParameters event = Returned event' ->
  event' =
    withContent
      (withParameters (Content (ResourceProperties event))
         (map convert (parametersOf (Content (ResourceProperties event)))))
      event
  /\ Forall2 converted
       (parametersOf (Content (ResourceProperties event)))
       (parametersOf (Content (ResourceProperties event'))).
Proof.
  intros (Hnull & Hps & HR & ->)%fixBooleanParameters_Returned_convert.
  split; [done|].
  change (Content (ResourceProperties (withContent ?c event))) with c.
  rewrite parametersOf_withParameters by apply length_map.
  clear. induction (parametersOf _) as [|x l IH]; constructor; [|done].
  unfold converted. destruct (isBooleanParameter x) eqn:E.
  - split; [by apply defaultOf_convert|]. intros name Hname. by apply property_convert.
  - destruct x as [| | | | |fields]; try done. unfold convert. by rewrite E.
Qed.

Lemma fixBooleanParameters_converts_witness :
  withContent (Payload.content (JBool true)) Payload.unchanged =
    withContent
      (withParameters (Payload.content (JString "true"))
         (map convert (parametersOf (Payload.content (JString "true")))))
      Payload.unchanged.
Proof.
  apply (fixBooleanParameters_converts Payload.unchanged
           (withContent (Payload.content (JBool true)) Payload.unchanged)).
  reflexivity.
Defined.

(** X13. The conversion is not idempotent. Applied to an event it has
    returned, [fixBooleanParameters] returns again, and then every Boolean
    parameter has the default [false]: a default that is already the
    boolean [true] does not compare equal to the string ['true']. *)
Theorem fixBooleanParameters_twice (event event1 : Event) :
  fixBooleanParameters event = Returned event1 ->
  exists event2,
    fixBooleanParameters event1 = Returned event2
    /\ Forall settled (parametersOf (Content (ResourceProperties event2))).
Proof.
  intros (Hnull & Hps & HR & ->)%fixBooleanParameters_Returned_convert.
  set (content := Content (ResourceProperties event)) in *.
  set (params1 := map convert (parametersOf content)).
  pose proof (withParameters_not_null _ params1 Hnull Hps) as [Hnull1 Hps1].
  pose proof (parametersOf_withParameters content params1 (length_map _ _)) as Hparams1.
  set (content1 := withParameters content params1) in *.
  exists (withContent (withParameters content1 (map convert params1))
            (withContent content1 event)).
  split.
  - apply fixBooleanParameters_Returned_convert.
    change (Content (ResourceProperties (withContent content1 event))) with content1.
    rewrite Hparams1. split; [done|split; [done|split; [|done]]].
    unfold params1. apply Forall_fmap. eapply Forall_impl; [exact HR|].
    intros x Hx. by apply rejects_convert.
  - change (Content (ResourceProperties (withContent ?c _))) with c.
    rewrite parametersOf_withParameters by (by rewrite Hparams1, length_map).
    unfold params1. apply Forall_fmap, Forall_fmap, Forall_forall.
    intros x _. apply settled_convert_twice.
Qed.

Lemma fixBooleanParameters_twice_witness :
  exists event2,
    fixBooleanParameters (withContent (Payload.content (JBool true)) Payload.unchanged)
      = Returned event2
    /\ Forall settled (parametersOf (Content (ResourceProperties event2))).
Proof.
  apply (fixBooleanParameters_twice Payload.unchanged). reflexivity.
Defined.

(** X14. The conversion touches the desired state only, so it makes an
    unchanged template look changed. For an update event whose previous and
    desired content are the same well-formed document, with equal effective
    target types, step 1 run on the event that [fixBooleanParameters]
    returned issues no call exactly when every Boolean parameter of the
    document has the boolean [false] as its default; otherwise it sends the
    update call, with the converted content. *)
Theorem updateDocument_after_conversion
    (ssm : SSM.client) (event event' : Event) (p : Process) :
  wf_json (Content (ResourceProperties event)) = true ->
  Content (ResourceProperties event) = Content (OldResourceProperties event) ->
  effectiveTargetType (ResourceProperties event) =
    effectiveTargetType (OldResourceProperties event) ->
  fixBooleanParameters event = Returned event' ->
  (issued (updateDocument ssm event') p = [] <->
     Forall settled (parametersOf (Content (ResourceProperties event))))
  /\ (issued (updateDocument ssm event') p <> [] ->
        issued (updateDocument ssm event') p =
          [SSM.updateDocument
             (Name (ResourceProperties event))
             (JSON.stringify (Content (ResourceProperties event')))
             (effectiveTargetType (ResourceProperties event))
             "$LATEST"]).
Proof.
  intros Hwf Hc Ht (Hnull & Hps & HR & ->)%fixBooleanParameters_Returned_convert.
  set (content := Content (ResourceProperties event)) in *.
  set (params' := map convert (parametersOf content)).
  set (event' := withContent (withParameters content params') event).
  assert (wf_json (withParameters content params') = true) as Hwf'.
  { apply wf_withParameters; [done|]. by apply wf_map_convert, wf_parametersOf. }
  assert (contentUnchanged event' <-> Forall settled (parametersOf content)) as Hiff.
  { rewrite <- map_convert_fixed. fold params'.
    rewrite <- (withParameters_eq_iff content params') by apply length_map.
    unfold contentUnchanged.
    change (Content (ResourceProperties event')) with (withParameters content params').
    change (OldResourceProperties event') with (OldResourceProperties event).
    rewrite <- Hc. split.
    - intros [H _]. by apply stringify_inj.
    - intros ->. split; [done|exact Ht]. }
  rewrite updateDocument_issued. split.
  - rewrite <- Hiff. case_decide; by split.
  - case_decide; done.
Qed.

Lemma updateDocument_after_conversion_witness :
  issued (updateDocument (Scenario.accepting "3")
            (withContent (Payload.content (JBool true)) Payload.unchanged)) initial = []
  <-> Forall settled (parametersOf (Payload.content (JString "true"))).
Proof.
  apply (updateDocument_after_conversion (Scenario.accepting "3") Payload.unchanged
           (withContent (Payload.content (JBool true)) Payload.unchanged) initial);
    reflexivity.
Defined.

(** X15. For the property that step 1 reads, [targetType]: step 1 issues
    no remote update call exactly when the serialized content and the
    effective target type are equal in the previous and the desired state;
    otherwise it issues exactly one, for the version marker ["$LATEST"],
    with the desired content and effective target type. No other step of
    [Update] issues an update call, so an update whose desired state is its
    previous state issues none. The effective target type is [targetType]
    itself when it is set and not empty, and ["/"] otherwise. *)
Theorem updateDocument_calls_iff_changed (ssm : SSM.client) (event : Event) (p : Process) :
  (issued (updateDocument ssm event) p = [] <->
     JSON.stringify (Content (ResourceProperties event)) =
       JSON.stringify (Content (OldResourceProperties event))
     /\ effectiveTargetType (ResourceProperties event) =
          effectiveTargetType (OldResourceProperties event))
  /\ issued (updateDocument ssm event) p =
       (if decide (contentUnchanged event) then []
        else [SSM.updateDocument
                (Name (ResourceProperties event))
                (JSON.stringify (Content (ResourceProperties event)))
                (effectiveTargetType (ResourceProperties event))
                "$LATEST"])
  /\ List.filter SSM.is_updateDocument (issued (Update ssm event) p) =
       issued (updateDocument ssm event) p
  /\ (ResourceProperties event = OldResourceProperties event ->
        List.filter SSM.is_updateDocument (issued (Update ssm event) p) = [])
  /\ (forall properties,
        effectiveTargetType properties =
          match targetType properties with
          | Some target => if decide (target = "") then "/" else target
          | None => "/"
          end).
Proof.
  split; [|split; [apply updateDocument_issued|split; [apply Update_update_calls|split]]].
  - rewrite updateDocument_issued. fold (contentUnchanged event).
    case_decide; [done|]. split; [discriminate|done].
  - intros E. rewrite Update_update_calls, updateDocument_issued.
    rewrite decide_True; [done|]. unfold contentUnchanged. by rewrite E.
  - intros properties. unfold effectiveTargetType.
    by destruct (targetType properties) as [[|c s]|].
Qed.

Lemma updateDocument_calls_iff_changed_witness :
  List.filter SSM.is_updateDocument
    (issued (Update (Scenario.accepting "3") Scenario.noChange) initial) = [].
Proof.
  apply (updateDocument_calls_iff_changed (Scenario.accepting "3") Scenario.noChange initial).
  reflexivity.
Defined.
